(** * cpm-assessment, lab 1-1 solution: AI request client and conversation store

    Shallow embedding of

    - [solution_examples/core/ai_client.py]   (module [AiClient] below)
    - [solution_examples/conversation/manager.py] (module [Conversation])

    Python [int] is [Z], Python [float] is modelled by exact rationals [Q]
    (only sums, differences and one quotient of clock readings and counters
    are taken; every concrete value used below is exactly representable as a
    binary float), Python [str] is [string], whose characters stand for the
    code points below 256. *)

From Stdlib Require Import ZArith QArith Qround List String Ascii Bool Lia.
From stdpp Require Import base gmap strings list.

Local Open Scope string_scope.
Local Open Scope list_scope.
Local Open Scope Z_scope.

(** [range(n)] of Python, for an integer [n]: empty when [n <= 0]. *)
Definition range (n : Z) : list Z := map Z.of_nat (seq 0 (Z.to_nat n)).

(* ===================================================================== *)
(** ** core/ai_client.py *)
(* ===================================================================== *)
Module AiClient.

Inductive ErrorType :=
| RATE_LIMIT | API_ERROR | INVALID_REQUEST | TIMEOUT
| AUTHENTICATION | QUOTA_EXCEEDED | UNKNOWN.

(** The dataclass [AIResponse], with its defaults. *)
Record AIResponse := mkAIResponse {
  content : string;
  success : bool;
  error_type : option ErrorType;
  error_message : option string;
  tokens_used : Z;
  model_used : string;
  response_time : Q;
  attempt_count : Z
}.

(** [AIResponse(content=c, success=s)]: every other field at its default. *)
Definition AIResponse_default (c : string) (s : bool) : AIResponse :=
  {| content := c; success := s; error_type := None; error_message := None;
     tokens_used := 0; model_used := ""; response_time := 0%Q;
     attempt_count := 1 |}.

(** The fields of [AIConfig] that the request path reads. *)
Record AIConfig := mkAIConfig {
  model : string;
  max_retries : Z
}.

(** What one call of [openai.ChatCompletion.create] does: it returns a
    completion, or raises.  The five named exception classes are pairwise
    unrelated subclasses of [OpenAIError], so each [except] clause of
    [_make_request_with_retry] catches exactly its own class; everything
    else (including a malformed completion object) lands in
    [except Exception]. *)
Inductive signal :=
| Completion (text : string) (total_tokens : Z)
| RateLimitError
| APIError
| InvalidRequestError
| AuthenticationError
| PermissionError
| OtherException.

(** The provider as seen by one [generate_response] call: its answer to the
    request issued at loop index [attempt]. *)
Definition provider := Z -> signal.

(** Observable effects of the attempt loop, in order. *)
Inductive event :=
| EvRequest (attempt : Z)
| EvSleep (seconds : Z).

(** A small writer monad over the effect log. *)
Definition Eff (A : Type) : Type := list event -> A * list event.

Definition ret {A} (a : A) : Eff A := fun log => (a, log).

Definition bind {A B} (m : Eff A) (k : A -> Eff B) : Eff B :=
  fun log => let (a, log') := m log in k a log'.

Declare Scope eff_scope.
Delimit Scope eff_scope with eff.
Notation "x <- m ;; k" := (bind m (fun x => k))
  (at level 100, m at next level, right associativity) : eff_scope.
Notation "m ;;; k" := (bind m (fun _ => k))
  (at level 100, right associativity) : eff_scope.

Definition time_sleep (seconds : Z) : Eff unit :=
  fun log => (tt, log ++ [EvSleep seconds]).

Definition ChatCompletion_create (p : provider) (attempt : Z) : Eff signal :=
  fun log => (p attempt, log ++ [EvRequest attempt]).

(** Run a computation from the empty log. *)
Definition run {A} (m : Eff A) : A * list event := m [].

Section Handlers.
Variable config : AIConfig.
Local Open Scope eff_scope.

Definition _handle_rate_limit_error (attempt : Z) : Eff AIResponse :=
  if attempt <? max_retries config then
    let wait_time := Z.min (2 ^ attempt) 60 in
    time_sleep wait_time ;;;
    ret (AIResponse_default "" true)
  else
    ret {| content := ""; success := false;
           error_type := Some RATE_LIMIT;
           error_message :=
             Some "Rate limit exceeded. Please try again in a few minutes.";
           tokens_used := 0; model_used := ""; response_time := 0%Q;
           attempt_count := attempt + 1 |}.

Definition _handle_api_error (attempt : Z) : Eff AIResponse :=
  if attempt <? max_retries config then
    let wait_time := 2 ^ attempt in
    time_sleep wait_time ;;;
    ret (AIResponse_default "" true)
  else
    ret {| content := ""; success := false;
           error_type := Some API_ERROR;
           error_message :=
             Some "AI service is temporarily unavailable. Please try again later.";
           tokens_used := 0; model_used := ""; response_time := 0%Q;
           attempt_count := attempt + 1 |}.

Definition _handle_invalid_request_error : AIResponse :=
  {| content := ""; success := false;
     error_type := Some INVALID_REQUEST;
     error_message :=
       Some "Invalid request. Please check your input and try again.";
     tokens_used := 0; model_used := ""; response_time := 0%Q;
     attempt_count := 1 |}.

Definition _handle_authentication_error : AIResponse :=
  {| content := ""; success := false;
     error_type := Some AUTHENTICATION;
     error_message :=
       Some "Authentication failed. Please check your API key.";
     tokens_used := 0; model_used := ""; response_time := 0%Q;
     attempt_count := 1 |}.

Definition _handle_permission_error : AIResponse :=
  {| content := ""; success := false;
     error_type := Some QUOTA_EXCEEDED;
     error_message :=
       Some "API quota exceeded. Please check your billing and usage limits.";
     tokens_used := 0; model_used := ""; response_time := 0%Q;
     attempt_count := 1 |}.

Definition _handle_unexpected_error (attempt : Z) : AIResponse :=
  {| content := ""; success := false;
     error_type := Some UNKNOWN;
     error_message :=
       Some "An unexpected error occurred. Please try again.";
     tokens_used := 0; model_used := ""; response_time := 0%Q;
     attempt_count := attempt + 1 |}.

(** The value returned when the [for] loop runs to its end. *)
Definition retries_exceeded : AIResponse :=
  {| content := ""; success := false;
     error_type := Some UNKNOWN;
     error_message := Some "Maximum retry attempts exceeded";
     tokens_used := 0; model_used := ""; response_time := 0%Q;
     attempt_count := max_retries config + 1 |}.

(** The body of [for attempt in ...], over the attempts still to run. *)
Fixpoint attempt_loop (p : provider) (attempts : list Z) : Eff AIResponse :=
  match attempts with
  | [] => ret retries_exceeded
  | attempt :: rest =>
      s <- ChatCompletion_create p attempt ;;
      match s with
      | Completion text total_tokens =>
          ret {| content := text; success := true;
                 error_type := None; error_message := None;
                 tokens_used := total_tokens;
                 model_used := model config;
                 response_time := 0%Q;
                 attempt_count := attempt + 1 |}
      | RateLimitError =>
          error_response <- _handle_rate_limit_error attempt ;;
          if negb (success error_response) then ret error_response
          else attempt_loop p rest
      | APIError => _handle_api_error attempt
      | InvalidRequestError => ret _handle_invalid_request_error
      | AuthenticationError => ret _handle_authentication_error
      | PermissionError => ret _handle_permission_error
      | OtherException => ret (_handle_unexpected_error attempt)
      end
  end.

Definition _make_request_with_retry (p : provider) : Eff AIResponse :=
  attempt_loop p (range (max_retries config + 1)).
End Handlers.

(** The usage counters of an [AIClient] instance. *)
Record AIClient := mkAIClient {
  total_requests : Z;
  successful_requests : Z;
  failed_requests : Z;
  total_tokens_used : Z;
  total_response_time : Q
}.

Definition _reset_statistics : AIClient :=
  {| total_requests := 0; successful_requests := 0; failed_requests := 0;
     total_tokens_used := 0; total_response_time := 0%Q |}.

Definition with_response_time (r : AIResponse) (t : Q) : AIResponse :=
  {| content := content r; success := success r;
     error_type := error_type r; error_message := error_message r;
     tokens_used := tokens_used r; model_used := model_used r;
     response_time := t; attempt_count := attempt_count r |}.

(** [generate_response].  [start_time] and [end_time] are the two readings
    of [time.time()], taken before the request and after the attempt loop.
    Building the message list and logging are pure and do not raise on a
    [str] message and a list history, and [_make_request_with_retry]
    converts every exception into a response, so the body of the [try]
    block runs to its [return]. *)
Definition generate_response (config : AIConfig) (p : provider)
    (start_time end_time : Q) (self : AIClient) : Eff (AIResponse * AIClient) :=
  (let total_requests' := total_requests self + 1 in
   response <- _make_request_with_retry config p ;;
   let successful_requests' :=
     if success response then successful_requests self + 1
     else successful_requests self in
   let total_tokens_used' :=
     if success response then total_tokens_used self + tokens_used response
     else total_tokens_used self in
   let failed_requests' :=
     if success response then failed_requests self
     else failed_requests self + 1 in
   let response := with_response_time response (end_time - start_time)%Q in
   ret (response,
        {| total_requests := total_requests';
           successful_requests := successful_requests';
           failed_requests := failed_requests';
           total_tokens_used := total_tokens_used';
           total_response_time :=
             (total_response_time self + response_time response)%Q |}))%eff.

(** Python's [round(x, 2)] on an exact value: nearest multiple of 1/100,
    ties to the even one. *)
Definition round_half_even (q : Q) : Z :=
  let f := Qfloor q in
  match ((q - inject_Z f) ?= (1 # 2))%Q with
  | Lt => f
  | Gt => f + 1
  | Eq => if Z.even f then f else f + 1
  end.

Definition round2 (q : Q) : Q :=
  (inject_Z (round_half_even (q * 100)) / 100)%Q.

(** The dictionary returned by [get_statistics]. *)
Module Stats.
Record t := mk {
  total_requests : Z;
  successful_requests : Z;
  failed_requests : Z;
  success_rate_percent : Q;
  total_tokens_used : Z;
  average_response_time_seconds : Q;
  model_used : string;
  max_retries_configured : Z
}.
End Stats.

Definition get_statistics (config : AIConfig) (self : AIClient) : Stats.t :=
  let avg_response_time :=
    if 0 <? total_requests self
    then (total_response_time self / inject_Z (total_requests self))%Q
    else 0%Q in
  let success_rate :=
    if 0 <? total_requests self
    then (inject_Z (successful_requests self)
          / inject_Z (total_requests self) * 100)%Q
    else 0%Q in
  {| Stats.total_requests := total_requests self;
     Stats.successful_requests := successful_requests self;
     Stats.failed_requests := failed_requests self;
     Stats.success_rate_percent := round2 success_rate;
     Stats.total_tokens_used := total_tokens_used self;
     Stats.average_response_time_seconds := round2 avg_response_time;
     Stats.model_used := model config;
     Stats.max_retries_configured := max_retries config |}.

(** One [generate_response] call on a fresh effect log: the outcome, the
    client afterwards, and what the call did. *)
Definition outcome (config : AIConfig) (p : provider) (t0 t1 : Q)
    (self : AIClient) : AIResponse :=
  fst (fst (run (generate_response config p t0 t1 self))).

Definition client_after (config : AIConfig) (p : provider) (t0 t1 : Q)
    (self : AIClient) : AIClient :=
  snd (fst (run (generate_response config p t0 t1 self))).

Definition effects (config : AIConfig) (p : provider) (t0 t1 : Q)
    (self : AIClient) : list event :=
  snd (run (generate_response config p t0 t1 self)).

(** The failure returned by [_handle_rate_limit_error] at the last attempt. *)
Definition rate_limit_failure (config : AIConfig) : AIResponse :=
  {| content := ""; success := false;
     error_type := Some RATE_LIMIT;
     error_message :=
       Some "Rate limit exceeded. Please try again in a few minutes.";
     tokens_used := 0; model_used := ""; response_time := 0%Q;
     attempt_count := max_retries config + 1 |}.

(** A rate-limited attempt followed by its capped backoff. *)
Definition backoff_step (a : Z) : list event :=
  [EvRequest a; EvSleep (Z.min (2 ^ a) 60)].

(** Attempts [0 .. n-1] each followed by a backoff, then attempt [n]. *)
Definition rate_limit_trace (n : Z) : list event :=
  flat_map backoff_step (range n) ++ [EvRequest n].

(** Concrete clients and providers used in the examples. *)
Definition default_config : AIConfig :=
  {| model := "gpt-3.5-turbo"; max_retries := 3 |}.

Definition fails_once_then_succeeds : provider :=
  fun attempt => if attempt =? 0 then APIError else Completion "real answer" 25.

Definition always_api_error : provider := fun _ => APIError.

Definition always_rate_limited : provider := fun _ => RateLimitError.

Definition rejects_credentials : provider := fun _ => AuthenticationError.

Definition answers (text : string) (tokens : Z) : provider :=
  fun _ => Completion text tokens.

Definition requests (log : list event) : list Z :=
  flat_map (fun e => match e with EvRequest a => [a] | EvSleep _ => [] end) log.

Definition sleeps (log : list event) : list Z :=
  flat_map (fun e => match e with EvSleep w => [w] | EvRequest _ => [] end) log.

End AiClient.

(* ===================================================================== *)
(** ** conversation/manager.py *)
(* ===================================================================== *)
Module Conversation.

(** *** Python values and strings *)

(** The values [json.load] produces and [json.dump] accepts.  A [dict] keeps
    its insertion order; [json.load] never yields a repeated key. *)
#[local] Unset Elimination Schemes.
Inductive json :=
| JNull
| JBool (b : bool)
| JInt (z : Z)
| JFloat (q : Q)
| JStr (s : string)
| JArr (items : list json)
| JObj (fields : list (string * json)).
#[local] Set Elimination Schemes.

(** [d.get(k)] on a [dict]. *)
Fixpoint dict_get (d : list (string * json)) (k : string) : option json :=
  match d with
  | [] => None
  | (k', v) :: d' => if String.eqb k' k then Some v else dict_get d' k
  end.

(** [d.get(k, dflt)]. *)
Definition get (d : list (string * json)) (k : string) (dflt : json) : json :=
  match dict_get d k with
  | Some v => v
  | None => dflt
  end.

(** Structural induction on [json] through its nested lists. *)
Section json_induction.
Variable P : json -> Prop.
Hypothesis HNull : P JNull.
Hypothesis HBool : forall b, P (JBool b).
Hypothesis HInt : forall z, P (JInt z).
Hypothesis HFloat : forall q, P (JFloat q).
Hypothesis HStr : forall s, P (JStr s).
Hypothesis HArr : forall items, Forall P items -> P (JArr items).
Hypothesis HObj :
  forall fields, Forall (fun kv => P (snd kv)) fields -> P (JObj fields).

Fixpoint json_nested_ind (v : json) : P v :=
  match v with
  | JNull => HNull
  | JBool b => HBool b
  | JInt z => HInt z
  | JFloat q => HFloat q
  | JStr s => HStr s
  | JArr items =>
      HArr items
        ((fix go (l : list json) : Forall P l :=
            match l with
            | [] => List.Forall_nil P
            | x :: r => List.Forall_cons P x r (json_nested_ind x) (go r)
            end) items)
  | JObj fields =>
      HObj fields
        ((fix go (l : list (string * json)) : Forall (fun kv => P (snd kv)) l :=
            match l with
            | [] => List.Forall_nil _
            | kv :: r =>
                List.Forall_cons (fun kv => P (snd kv)) kv r
                  (json_nested_ind (snd kv)) (go r)
            end) fields)
  end.
End json_induction.

(** [str.isspace] on one character with code point below 256. *)
Definition isspace (c : ascii) : bool :=
  let n := Z.of_N (N_of_ascii c) in
  ((9 <=? n) && (n <=? 13)) || ((28 <=? n) && (n <=? 32))
  || (n =? 133) || (n =? 160).

Fixpoint lstrip (s : string) : string :=
  match s with
  | EmptyString => EmptyString
  | String c rest => if isspace c then lstrip rest else s
  end.

Fixpoint rstrip (s : string) : string :=
  match s with
  | EmptyString => EmptyString
  | String c rest =>
      match rstrip rest with
      | EmptyString => if isspace c then EmptyString else String c EmptyString
      | rest' => String c rest'
      end
  end.

(** [str.strip()]. *)
Definition strip (s : string) : string := rstrip (lstrip s).

(** A text that is empty or consists of whitespace only. *)
Fixpoint blank (s : string) : bool :=
  match s with
  | EmptyString => true
  | String c rest => isspace c && blank rest
  end.

Definition first_char (s : string) : option ascii :=
  match s with
  | EmptyString => None
  | String c _ => Some c
  end.

Fixpoint last_char (s : string) : option ascii :=
  match s with
  | EmptyString => None
  | String c EmptyString => Some c
  | String _ rest => last_char rest
  end.

(** [l[i:]] for a Python list and an integer [i]. *)
Definition slice_from {A} (i : Z) (l : list A) : list A :=
  let len := Z.of_nat (length l) in
  let start := if i <? 0 then Z.max 0 (len + i) else Z.min i len in
  drop (Z.to_nat start) l.

(** *** pathlib *)

(** Split around the last occurrence of [sep]. *)
Fixpoint rsplit (sep : ascii) (s : string) : option (string * string) :=
  match s with
  | EmptyString => None
  | String c rest =>
      match rsplit sep rest with
      | Some (before, after) => Some (String c before, after)
      | None => if Ascii.eqb c sep then Some (EmptyString, rest) else None
      end
  end.

(** [Path.with_suffix] on a normalised path with a non-empty final
    component, for a well-formed [suffix] (a dot followed by characters other
    than the separator): the last extension of the final component is
    replaced, or [suffix] is appended when there is none. *)
Definition with_suffix (path suffix : string) : string :=
  let '(parent, name) :=
    match rsplit "/" path with
    | Some (dir, name) => (dir +:+ "/", name)
    | None => ("", path)
    end in
  let stem :=
    match rsplit "." name with
    | Some (stem, ext) =>
        if negb (String.eqb stem "") && negb (String.eqb ext "")
        then stem else name
    | None => name
    end in
  parent +:+ stem +:+ suffix.

(** *** The file system *)

(** What reading a file and handing it to [json.load] gives. *)
Inductive file_content :=
| Undecodable            (* not UTF-8 text: reading raises UnicodeDecodeError *)
| NotJson                (* text that json.load rejects: JSONDecodeError *)
| JsonText (v : json).   (* the text json.dump writes for v *)

Inductive exn :=
| AttributeError | JSONDecodeError | UnicodeDecodeError.

Inductive result (A : Type) :=
| Ok (a : A)
| Raise (e : exn).
Arguments Ok {A} a.
Arguments Raise {A} e.

Definition json_load (c : file_content) : result json :=
  match c with
  | Undecodable => Raise UnicodeDecodeError
  | NotJson => Raise JSONDecodeError
  | JsonText v => Ok v
  end.

(** Files by path.  File operations fail only when their source is missing. *)
Abbreviation disk := (gmap string file_content).

(** *** ConversationExchange *)

(** Field values are whatever Python object was stored: [from_dict] does not
    check types. *)
Record ConversationExchange := mkExchange {
  timestamp : json;
  user : json;
  assistant : json;
  tokens_used : json;
  model_used : json;
  response_time : json;
  metadata : json
}.

(** [ConversationExchange.from_dict]; [now] is [datetime.now().isoformat()].
    Only a [dict] has [.get]. *)
Definition from_dict (now : string) (data : json) : result ConversationExchange :=
  match data with
  | JObj d =>
      Ok {| timestamp := get d "timestamp" (JStr now);
            user := get d "user" (JStr "");
            assistant := get d "assistant" (JStr "");
            tokens_used := get d "tokens_used" (JInt 0);
            model_used := get d "model_used" (JStr "");
            response_time := get d "response_time" (JFloat 0);
            metadata := get d "metadata" JNull |}
  | _ => Raise AttributeError
  end.

(** The recursion of [dataclasses.asdict] on a field value: lists and dicts
    are rebuilt, anything else is deep-copied. *)
Fixpoint _asdict_inner (v : json) : json :=
  match v with
  | JArr items => JArr (map _asdict_inner items)
  | JObj fields =>
      JObj (map (fun kv => match kv with (k, x) => (k, _asdict_inner x) end)
                fields)
  | _ => v
  end.

Definition to_dict (c : ConversationExchange) : json :=
  JObj [("timestamp", _asdict_inner (timestamp c));
        ("user", _asdict_inner (user c));
        ("assistant", _asdict_inner (assistant c));
        ("tokens_used", _asdict_inner (tokens_used c));
        ("model_used", _asdict_inner (model_used c));
        ("response_time", _asdict_inner (response_time c));
        ("metadata", _asdict_inner (metadata c))].

(** *** ConversationManager *)

(** The fields of [AppConfig] that the manager reads. *)
Record AppConfig := mkAppConfig {
  max_history_context : Z;
  auto_save : bool;
  backup_on_corruption : bool
}.

(** [file_path] is [Path(config.get_full_conversation_path())], normalised. *)
Record ConversationManager := mkManager {
  config : AppConfig;
  file_path : string;
  _conversations : list ConversationExchange
}.

Definition set_conversations (self : ConversationManager)
    (l : list ConversationExchange) : ConversationManager :=
  {| config := config self; file_path := file_path self; _conversations := l |}.

(** [_create_backup(suffix)]; [stamp] is
    [datetime.now().strftime("%Y%m%d_%H%M%S")].  [shutil.copy2] raises when
    the source is missing, which the method turns into [False]. *)
Definition backup_path (self : ConversationManager) (suffix stamp : string) : string :=
  with_suffix (file_path self) ("." +:+ suffix +:+ "_" +:+ stamp +:+ ".backup").

Definition _create_backup (suffix stamp : string)
    (self : ConversationManager) (fs : disk) : bool * disk :=
  match fs !! file_path self with
  | Some c => (true, <[backup_path self suffix stamp := c]> fs)
  | None => (false, fs)
  end.

Definition _handle_corrupted_file (error_type stamp : string)
    (self : ConversationManager) (fs : disk) : ConversationManager * disk :=
  let fs' :=
    if backup_on_corruption (config self)
    then snd (_create_backup ("corrupted_" +:+ error_type) stamp self fs)
    else fs in
  (set_conversations self [], fs').

(** The list comprehension [[from_dict(item) for item in data]]: the first
    item that raises aborts it.  [now i] is the clock reading taken for the
    item at index [i]. *)
Fixpoint from_dicts (now : nat -> string) (i : nat) (data : list json)
    : result (list ConversationExchange) :=
  match data with
  | [] => Ok []
  | item :: rest =>
      match from_dict (now i) item with
      | Raise e => Raise e
      | Ok c =>
          match from_dicts now (S i) rest with
          | Raise e => Raise e
          | Ok cs => Ok (c :: cs)
          end
      end
  end.

Definition _load_conversations (now : nat -> string) (stamp : string)
    (self : ConversationManager) (fs : disk) : ConversationManager * disk :=
  match fs !! file_path self with
  | None => (self, fs)
  | Some c =>
      match json_load c with
      | Ok (JArr data) =>
          match from_dicts now 0 data with
          | Ok convs => (set_conversations self convs, fs)
          | Raise _ => _handle_corrupted_file "unexpected_error" stamp self fs
          end
      | Ok _ =>
          let fs' := snd (_create_backup "invalid_format" stamp self fs) in
          (set_conversations self [], fs')
      | Raise JSONDecodeError =>
          _handle_corrupted_file "json_decode_error" stamp self fs
      | Raise _ =>
          _handle_corrupted_file "unexpected_error" stamp self fs
      end
  end.

(** [ConversationManager(config)]: an empty history, then the load. *)
Definition init (cfg : AppConfig) (path : string) (now : nat -> string)
    (stamp : string) (fs : disk) : ConversationManager * disk :=
  _load_conversations now stamp
    {| config := cfg; file_path := path; _conversations := [] |} fs.

(** [_save_conversations]: dump to the [.tmp] sibling, then rename it over
    the target. *)
Definition _save_conversations (self : ConversationManager) (fs : disk) : disk :=
  let temp_path := with_suffix (file_path self) ".tmp" in
  let text := JsonText (JArr (map to_dict (_conversations self))) in
  <[file_path self := text]> (delete temp_path (<[temp_path := text]> fs)).

Definition opt_dict (m : option (list (string * json))) : json :=
  match m with
  | Some d => JObj d
  | None => JNull
  end.

(** [add_exchange]; [now] is [datetime.now().isoformat()]. *)
Definition add_exchange (now : string) (user_message ai_response : string)
    (tokens : Z) (model : string) (rtime : Q)
    (meta : option (list (string * json)))
    (self : ConversationManager) (fs : disk) : ConversationManager * disk :=
  if String.eqb (strip user_message) "" || String.eqb (strip ai_response) ""
  then (self, fs)
  else
    let exchange :=
      {| timestamp := JStr now;
         user := JStr (strip user_message);
         assistant := JStr (strip ai_response);
         tokens_used := JInt tokens;
         model_used := JStr model;
         response_time := JFloat rtime;
         metadata := opt_dict meta |} in
    let self' := set_conversations self (_conversations self ++ [exchange]) in
    (self', if auto_save (config self) then _save_conversations self' fs else fs).

(** [x or y] for an optional integer [x]: [None] and [0] are falsy. *)
Definition or_default (x : option Z) (y : Z) : Z :=
  match x with
  | Some n => if n =? 0 then y else n
  | None => y
  end.

Definition context_entry (include_metadata : bool) (e : ConversationExchange) : json :=
  if include_metadata then to_dict e
  else JObj [("user", user e); ("assistant", assistant e);
             ("timestamp", timestamp e)].

(** [get_recent_context]: the returned list, and the manager afterwards. *)
Definition get_recent_context (max_exchanges : option Z) (include_metadata : bool)
    (self : ConversationManager) : list json * ConversationManager :=
  let limit := or_default max_exchanges (max_history_context (config self)) in
  let recent_conversations :=
    if 0 <? limit then slice_from (- limit) (_conversations self) else [] in
  (map (context_entry include_metadata) recent_conversations, self).

Inductive ConversationFormat := JSON | CSV | TXT | HTML.

Definition _export_json (path : string) (conversations : list ConversationExchange)
    (fs : disk) : disk :=
  <[path := JsonText (JArr (map to_dict conversations))]> fs.

(** [export_conversations] without a [date_range].  The CSV, TXT and HTML
    renderers write text that is not JSON. *)
Definition export_conversations (path : string) (format_type : ConversationFormat)
    (self : ConversationManager) (fs : disk) : bool * disk :=
  let conversations := _conversations self in
  match conversations with
  | [] => (false, fs)
  | _ =>
      match format_type with
      | JSON => (true, _export_json path conversations fs)
      | _ => (true, <[path := NotJson]> fs)
      end
  end.

(** [optimize_storage]: the count returned, the manager and the disk. *)
Definition optimize_storage (max_exchanges : option Z) (stamp : string)
    (self : ConversationManager) (fs : disk) : Z * ConversationManager * disk :=
  let max_exchanges :=
    or_default max_exchanges (max_history_context (config self) * 10) in
  let len := Z.of_nat (length (_conversations self)) in
  if len <=? max_exchanges then (0, self, fs)
  else
    let fs1 := snd (_create_backup "before_optimization" stamp self fs) in
    let removed_count := len - max_exchanges in
    let self' :=
      set_conversations self (slice_from (- max_exchanges) (_conversations self)) in
    (removed_count, self',
     if auto_save (config self) then _save_conversations self' fs1 else fs1).

(** *** Saved files and example data *)

(** A record as [to_dict] writes it: the seven fields, in dataclass order. *)
Inductive complete_record : json -> Prop :=
| complete_record_intro ts u a tk m rt md :
    complete_record
      (JObj [("timestamp", ts); ("user", u); ("assistant", a);
             ("tokens_used", tk); ("model_used", m);
             ("response_time", rt); ("metadata", md)]).

Definition demo_exchange (n : Z) : ConversationExchange :=
  {| timestamp := JStr "2023-10-01T10:00:00";
     user := JStr "Hello, how are you?";
     assistant := JStr "I'm doing well, thank you!";
     tokens_used := JInt n;
     model_used := JStr "gpt-3.5-turbo";
     response_time := JFloat (3 # 2);
     metadata := JNull |}.

Definition demo_manager (ctx : Z) (backup : bool)
    (l : list ConversationExchange) : ConversationManager :=
  {| config := {| max_history_context := ctx; auto_save := false;
                  backup_on_corruption := backup |};
     file_path := "conversations.json";
     _conversations := l |}.

Definition demo_now : nat -> string := fun _ => "2024-01-01T12:00:00".

Definition demo_stamp : string := "20240101_120000".

Definition demo_config (backup : bool) : AppConfig :=
  {| max_history_context := 20; auto_save := true;
     backup_on_corruption := backup |}.

(** The file of [test_load_invalid_format_file]: a dict, not a list. *)
Definition wrong_shape : json := JObj [("invalid", JStr "format")].

End Conversation.

(* ===================================================================== *)
(** ** conversation/manager.py, continued *)
(* ===================================================================== *)
Module ConversationOps.
Import Conversation.

(** [ConversationExchange.to_openai_format]. *)
Definition to_openai_format (e : ConversationExchange) : list json :=
  [JObj [("role", JStr "user"); ("content", user e)];
   JObj [("role", JStr "assistant"); ("content", assistant e)]].


(** [clear_history]; [stamp] is the clock reading of the backup. *)
Definition clear_history (create_backup : bool) (stamp : string)
    (self : ConversationManager) (fs : disk) : bool * ConversationManager * disk :=
  let fs1 :=
    match create_backup, _conversations self with
    | true, _ :: _ => snd (_create_backup "manual_clear" stamp self fs)
    | _, _ => fs
    end in
  let self' := set_conversations self [] in
  (true, self',
   if auto_save (config self) then _save_conversations self' fs1 else fs1).

(** *** Searching *)

(** [str.lower] on one character with code point below 256: the ASCII
    capitals and the Latin-1 capitals move up by 32. *)
Definition lower_char (c : ascii) : ascii :=
  let n := Z.of_N (N_of_ascii c) in
  if ((65 <=? n) && (n <=? 90)) || ((192 <=? n) && (n <=? 214))
     || ((216 <=? n) && (n <=? 222))
  then ascii_of_N (Z.to_N (n + 32)) else c.

Fixpoint lower (s : string) : string :=
  match s with
  | EmptyString => EmptyString
  | String c rest => String (lower_char c) (lower rest)
  end.

Fixpoint startswith (s p : string) : bool :=
  match p, s with
  | EmptyString, _ => true
  | String _ _, EmptyString => false
  | String a p', String b s' => Ascii.eqb a b && startswith s' p'
  end.

(** [needle in hay] for two [str]. *)
Fixpoint contains (needle hay : string) : bool :=
  startswith hay needle
  || match hay with
     | EmptyString => false
     | String _ rest => contains needle rest
     end.

(** A call returns, or raises one of the two exceptions a search can meet
    on a field that is not a [str]. *)
Inductive raised (A : Type) :=
| Returns (a : A)
| RaisesAttributeError
| RaisesTypeError.
Arguments Returns {A} a.
Arguments RaisesAttributeError {A}.
Arguments RaisesTypeError {A}.

(** [field.lower()]: only a [str] has the method. *)
Definition field_lower (v : json) : raised json :=
  match v with
  | JStr s => Returns (JStr (lower s))
  | _ => RaisesAttributeError
  end.

(** [query in field] for a [str] query: substring test on a [str], element
    test on a list, key test on a dict, [TypeError] otherwise. *)
Definition query_in (query : string) (v : json) : raised bool :=
  match v with
  | JStr s => Returns (contains query s)
  | JArr items =>
      Returns (existsb (fun x => match x with
                                 | JStr s => String.eqb query s
                                 | _ => false
                                 end) items)
  | JObj fields =>
      Returns (match dict_get fields query with Some _ => true | None => false end)
  | _ => RaisesTypeError
  end.

(** The test made on one field of an exchange. *)
Definition field_matches (search_query : string) (case_sensitive : bool)
    (v : json) : raised bool :=
  if case_sensitive then query_in search_query v
  else match field_lower v with
       | Returns text => query_in search_query text
       | RaisesAttributeError => RaisesAttributeError
       | RaisesTypeError => RaisesTypeError
       end.

(** [limit and len(results) >= limit]. *)
Definition limit_reached (limit : option Z) (results : list ConversationExchange) : bool :=
  match limit with
  | Some n => negb (n =? 0) && (n <=? Z.of_nat (length results))
  | None => false
  end.

(** The [for exchange in self._conversations] loop of
    [search_conversations]. *)
Fixpoint search_loop (search_query : string)
    (case_sensitive search_user search_assistant : bool) (limit : option Z)
    (conversations results : list ConversationExchange)
    : raised (list ConversationExchange) :=
  match conversations with
  | [] => Returns results
  | exchange :: rest =>
      let continue (match_found : bool) :=
        if match_found then
          let results' := results ++ [exchange] in
          if limit_reached limit results' then Returns results'
          else search_loop search_query case_sensitive search_user
                 search_assistant limit rest results'
        else search_loop search_query case_sensitive search_user
               search_assistant limit rest results in
      let after_user (match_found : bool) :=
        if search_assistant && negb match_found then
          match field_matches search_query case_sensitive (assistant exchange) with
          | Returns true => continue true
          | Returns false => continue match_found
          | RaisesAttributeError => RaisesAttributeError
          | RaisesTypeError => RaisesTypeError
          end
        else continue match_found in
      if search_user then
        match field_matches search_query case_sensitive (user exchange) with
        | Returns m => after_user m
        | RaisesAttributeError => RaisesAttributeError
        | RaisesTypeError => RaisesTypeError
        end
      else after_user false
  end.

Definition search_conversations (query : string)
    (case_sensitive search_user search_assistant : bool) (limit : option Z)
    (self : ConversationManager) : raised (list ConversationExchange) :=
  if String.eqb (strip query) "" then Returns []
  else
    let search_query := if case_sensitive then query else lower query in
    search_loop search_query case_sensitive search_user search_assistant limit
      (_conversations self) [].

(** An exchange as [add_exchange] stores it: both texts are [str]. *)
Definition text_exchange (e : ConversationExchange) : Prop :=
  (exists u, user e = JStr u) /\ (exists a, assistant e = JStr a).

Definition field_text (v : json) : string :=
  match v with
  | JStr s => s
  | _ => EmptyString
  end.

(** Whether an exchange with [str] texts is a hit. *)
Definition hit (query : string) (case_sensitive search_user search_assistant : bool)
    (e : ConversationExchange) : bool :=
  let q := if case_sensitive then query else lower query in
  let norm := fun s => if case_sensitive then s else lower s in
  (search_user && contains q (norm (field_text (user e))))
  || (search_assistant && contains q (norm (field_text (assistant e)))).

(** How many hits a [limit] lets through: all of them for [None] and 0, the
    first [n] for a positive [n], the first one for a negative [n]. *)
Definition limit_take (limit : option Z) (l : list ConversationExchange)
    : list ConversationExchange :=
  match limit with
  | None => l
  | Some n => if n =? 0 then l else take (Z.to_nat (Z.max 1 n)) l
  end.

(** How many more hits are let through once [r] are collected. *)
Definition take_more (limit : option Z) (r : nat)
    (l : list ConversationExchange) : list ConversationExchange :=
  match limit with
  | None => l
  | Some n => if Z.eqb n 0 then l
              else take (Z.to_nat (Z.max 1 (n - Z.of_nat r))) l
  end.

(** What [from_dict] makes of a dict: each field is the value under its key,
    or the default. *)
Definition filled (now : string) (d : list (string * json)) : ConversationExchange :=
  {| timestamp := get d "timestamp" (JStr now);
     user := get d "user" (JStr "");
     assistant := get d "assistant" (JStr "");
     tokens_used := get d "tokens_used" (JInt 0);
     model_used := get d "model_used" (JStr "");
     response_time := get d "response_time" (JFloat 0);
     metadata := get d "metadata" JNull |}.

(** The exchange [add_exchange] builds from its arguments. *)
Definition stored (now u a : string) (tokens : Z) (mdl : string) (rt : Q)
    (meta : option (list (string * json))) : ConversationExchange :=
  {| timestamp := JStr now; user := JStr (strip u); assistant := JStr (strip a);
     tokens_used := JInt tokens; model_used := JStr mdl;
     response_time := JFloat rt; metadata := opt_dict meta |}.

(** An exchange whose texts are non-empty strings that [strip] leaves
    alone. *)
Definition clean (e : ConversationExchange) : Prop :=
  exists u a, user e = JStr u /\ assistant e = JStr a
              /\ u <> "" /\ a <> "" /\ strip u = u /\ strip a = a.

(** Example data: an exchange as a file holding [{"user": null}] loads it. *)
Definition null_user_exchange : ConversationExchange :=
  filled "2024-01-01T12:00:00" [("user", JNull)].

Definition saving_manager (l : list ConversationExchange) : ConversationManager :=
  {| config := demo_config true; file_path := "conversations.json";
     _conversations := l |}.

End ConversationOps.

(* ===================================================================== *)
(** ** Message building, call sequences and main.py *)
(* ===================================================================== *)
Module Assistant.
Import AiClient Conversation.

(** [key in d] for a [dict]. *)
Definition has_key (d : list (string * json)) (k : string) : bool :=
  match dict_get d k with
  | Some _ => true
  | None => false
  end.

(** The messages one history entry contributes in [_build_messages]. *)
Definition history_messages (exchange : json) : list json :=
  match exchange with
  | JObj d =>
      if has_key d "user" && has_key d "assistant" then
        [JObj [("role", JStr "user"); ("content", get d "user" JNull)];
         JObj [("role", JStr "assistant"); ("content", get d "assistant" JNull)]]
      else if has_key d "role" && has_key d "content" then
        [JObj [("role", get d "role" JNull); ("content", get d "content" JNull)]]
      else []
  | _ => []
  end.

(** [x or y] for an optional [str]: [None] and the empty string are falsy. *)
Definition or_prompt (x : option string) (y : string) : string :=
  match x with
  | Some s => if String.eqb s "" then y else s
  | None => y
  end.

(** [AIClient._build_messages]; [system_prompt] and [max_tokens] are the
    two configuration fields it reads. *)
Definition _build_messages (system_prompt : string) (max_tokens : Z)
    (user_message : string) (history : option (list json))
    (custom_system_prompt : option string) : list json :=
  let system := or_prompt custom_system_prompt system_prompt in
  let from_history :=
    match history with
    | None | Some [] => []
    | Some h =>
        let recent_history := slice_from (- max_tokens / 100) h in
        flat_map history_messages recent_history
    end in
  JObj [("role", JStr "system"); ("content", JStr system)]
    :: from_history
    ++ [JObj [("role", JStr "user"); ("content", JStr user_message)]].

(** One [generate_response] call: the provider it meets and the two clock
    readings. *)
Record call := mkCall {
  call_provider : provider;
  call_start : Q;
  call_end : Q
}.

(** Consecutive [generate_response] calls on one client. *)
Fixpoint generate_all (config : AIConfig) (calls : list call) (self : AIClient)
    : list AIResponse * AIClient :=
  match calls with
  | [] => ([], self)
  | c :: rest =>
      let r := outcome config (call_provider c) (call_start c) (call_end c) self in
      let self' :=
        client_after config (call_provider c) (call_start c) (call_end c) self in
      let '(rs, self'') := generate_all config rest self' in
      (r :: rs, self'')
  end.

(** Total seconds slept in an effect log. *)
Definition total_sleep (log : list event) : Z :=
  fold_right Z.add 0 (sleeps log).

(** [ErrorType.value]. *)
Definition ErrorType_value (e : ErrorType) : string :=
  match e with
  | RATE_LIMIT => "rate_limit"
  | API_ERROR => "api_error"
  | INVALID_REQUEST => "invalid_request"
  | TIMEOUT => "timeout"
  | AUTHENTICATION => "authentication"
  | QUOTA_EXCEEDED => "quota_exceeded"
  | UNKNOWN => "unknown"
  end.

(** [f"{x}"] for an optional [str]. *)
Definition format_opt (x : option string) : string :=
  match x with
  | Some s => s
  | None => "None"
  end.

(** The application state [AIAssistant] holds. *)
Record AIAssistant := mkAssistant {
  ai_client : AIClient;
  conversation_manager : ConversationManager
}.

(** [AIAssistant._process_chat_message].  The context read from the store
    goes into the request; the provider's answer to each attempt is [p].
    [start_time], [end_time] are the clock readings of [generate_response]
    and [now] the one of [add_exchange]. *)
Definition _process_chat_message (ai_config : AIConfig) (p : provider)
    (start_time end_time : Q) (now : string) (user_message : string)
    (self : AIAssistant) (fs : disk) : Eff (string * AIAssistant * disk) :=
  (let '(context, manager) :=
     get_recent_context None false (conversation_manager self) in
   res <- generate_response ai_config p start_time end_time (ai_client self) ;;
   let '(ai_response, client) := res in
   if success ai_response then
     let '(manager', fs') :=
       add_exchange now user_message (content ai_response)
         (AiClient.tokens_used ai_response) (AiClient.model_used ai_response)
         (AiClient.response_time ai_response)
         (Some [("attempt_count", JInt (attempt_count ai_response));
                ("error_type",
                 match error_type ai_response with
                 | Some e => JStr (ErrorType_value e)
                 | None => JNull
                 end)])
         manager fs in
     ret (content ai_response,
          {| ai_client := client; conversation_manager := manager' |}, fs')
   else
     ret ("Sorry, I encountered an error: "
            +:+ format_opt (error_message ai_response),
          {| ai_client := client; conversation_manager := manager |}, fs))%eff.

(** *** Auxiliary notions for the properties below *)

(** What a signal that is never retried turns into: the error kind and the
    attempt count reported, at loop index [k]. *)
Definition refusal (s : signal) (k : Z) : option (ErrorType * Z) :=
  match s with
  | InvalidRequestError => Some (INVALID_REQUEST, 1)
  | AuthenticationError => Some (AUTHENTICATION, 1)
  | PermissionError => Some (QUOTA_EXCEEDED, 1)
  | OtherException => Some (UNKNOWN, k + 1)
  | _ => None
  end.

(** What a run of the loop over attempts [a0 .. a0+n-1] leaves behind: the
    sleeps are few, positive and short, and either the loop ran to its end
    or it returned after [j] requests. *)
Definition loop_bounds (config : AIConfig) (a0 n : nat) (r : AIResponse)
    (ev : list event) : Prop :=
  Z.of_nat (length (sleeps ev)) <= Z.max 0 (max_retries config - Z.of_nat a0)
  /\ Forall (fun w => 1 <= w) (sleeps ev)
  /\ total_sleep ev
     <= Z.max 0 (2 ^ max_retries config - 2 ^ Z.of_nat a0)
  /\ ((r = retries_exceeded config
       /\ requests ev = map Z.of_nat (seq a0 n)
       /\ (n = 0%nat \/ Z.of_nat a0 + Z.of_nat n <= max_retries config))
      \/ (exists j, (1 <= j <= n)%nat
            /\ requests ev = map Z.of_nat (seq a0 j)
            /\ 1 <= attempt_count r <= Z.of_nat a0 + Z.of_nat j
            /\ error_message r <> Some "Maximum retry attempts exceeded")).

Definition successes (rs : list AIResponse) : Z :=
  Z.of_nat (length (List.filter success rs)).

Definition failures (rs : list AIResponse) : Z :=
  Z.of_nat (length (List.filter (fun r => negb (success r)) rs)).

Definition tokens_of (rs : list AIResponse) : Z :=
  fold_right Z.add 0 (map AiClient.tokens_used (List.filter success rs)).

Definition system_message (s : string) : json :=
  JObj [("role", JStr "system"); ("content", JStr s)].

Definition user_message_of (s : string) : json :=
  JObj [("role", JStr "user"); ("content", JStr s)].

(** The number of trailing history entries [_build_messages] keeps: the
    negated floor quotient of [-max_tokens] by 100. *)
Definition history_window (max_tokens : Z) : Z := - (- max_tokens / 100).

Definition reply_of (x : string * AIAssistant * disk) : string := fst (fst x).

Definition assistant_of (x : string * AIAssistant * disk) : AIAssistant :=
  snd (fst x).

Definition disk_of (x : string * AIAssistant * disk) : disk := snd x.

(** Example providers. *)
Definition once_limited : provider :=
  fun a => if a =? 0 then RateLimitError else Completion "Success after retry" 25.

Definition limited_then_refused : provider :=
  fun a => if a <? 2 then RateLimitError else AuthenticationError.

Definition limited_then_unavailable : provider :=
  fun a => if a <? 3 then RateLimitError else APIError.

End Assistant.

(* ===================================================================== *)
(** ** Properties of the request client *)
(* ===================================================================== *)
Module AiClientProps.
Import AiClient.

(** *** Lists of attempts and effect logs *)

Lemma range_snoc n : 0 <= n -> range (n + 1) = range n ++ [n].
Proof.
  intros Hn. unfold range.
  replace (Z.to_nat (n + 1)) with (Z.to_nat n + 1)%nat by lia.
  rewrite seq_app, map_app. cbn. rewrite Z2Nat.id by lia. reflexivity.
Qed.

Lemma range_cons n :
  0 <= n -> range (n + 1) = 0 :: map Z.of_nat (seq 1 (Z.to_nat n)).
Proof.
  intros Hn. unfold range.
  replace (Z.to_nat (n + 1)) with (S (Z.to_nat n)) by lia. reflexivity.
Qed.

Lemma length_range n : length (range n) = Z.to_nat n.
Proof. unfold range. now rewrite length_map, length_seq. Qed.

Lemma requests_app l1 l2 : requests (l1 ++ l2) = requests l1 ++ requests l2.
Proof. unfold requests. apply flat_map_app. Qed.

Lemma sleeps_app l1 l2 : sleeps (l1 ++ l2) = sleeps l1 ++ sleeps l2.
Proof. unfold sleeps. apply flat_map_app. Qed.

Lemma requests_backoff l : requests (flat_map backoff_step l) = l.
Proof.
  induction l as [|a l IH]; cbn; [reflexivity | now rewrite <- IH at 2].
Qed.

Lemma sleeps_backoff l :
  sleeps (flat_map backoff_step l) = map (fun a => Z.min (2 ^ a) 60) l.
Proof. induction l as [|a l IH]; cbn; [reflexivity | now rewrite <- IH]. Qed.

(** *** The attempt loop *)

(** A provider that is rate limited at every attempt drives the loop from
    attempt [a] to the last one, backing off after each attempt but the
    last. *)
Lemma loop_rate_limited config (p : provider) :
  (forall a, 0 <= a <= max_retries config -> p a = RateLimitError) ->
  forall n a log,
    Z.of_nat a + Z.of_nat n = max_retries config ->
    attempt_loop config p (map Z.of_nat (seq a (S n))) log
    = (rate_limit_failure config,
       log ++ flat_map backoff_step (map Z.of_nat (seq a n))
           ++ [EvRequest (max_retries config)]).
Proof.
  intros Hp n. induction n as [|n IH]; intros a log Hsum.
  - cbn [seq map attempt_loop]. unfold bind, ChatCompletion_create.
    rewrite Hp by lia. unfold _handle_rate_limit_error.
    replace (Z.of_nat a <? max_retries config) with false
      by (symmetry; apply Z.ltb_ge; lia).
    unfold ret. cbn. unfold rate_limit_failure.
    replace (Z.of_nat a) with (max_retries config) by lia. reflexivity.
  - change (seq a (S (S n))) with (a :: seq (S a) (S n)).
    cbn [map attempt_loop]. unfold bind at 1, ChatCompletion_create.
    rewrite Hp by lia. unfold bind at 1, _handle_rate_limit_error.
    replace (Z.of_nat a <? max_retries config) with true
      by (symmetry; apply Z.ltb_lt; lia).
    unfold bind at 1, time_sleep, ret. cbn [success AIResponse_default negb].
    rewrite IH by lia.
    change (seq a (S n)) with (a :: seq (S a) n). cbn [map flat_map].
    unfold backoff_step at 2. rewrite <- !app_assoc. reflexivity.
Qed.

Lemma retry_rate_limited config (p : provider) :
  0 <= max_retries config ->
  (forall a, 0 <= a <= max_retries config -> p a = RateLimitError) ->
  run (_make_request_with_retry config p)
  = (rate_limit_failure config, rate_limit_trace (max_retries config)).
Proof.
  intros Hm Hp. unfold run, _make_request_with_retry, range.
  replace (Z.to_nat (max_retries config + 1))
    with (S (Z.to_nat (max_retries config))) by lia.
  rewrite (loop_rate_limited config p Hp) by lia. reflexivity.
Qed.

(** On [APIError] with attempts left, the loop stops at once: the value
    meant to say "retry" is what the caller gets. *)
Lemma loop_api_error_marker config (p : provider) a rest log :
  p a = APIError -> a < max_retries config ->
  attempt_loop config p (a :: rest) log
  = (AIResponse_default "" true, log ++ [EvRequest a] ++ [EvSleep (2 ^ a)]).
Proof.
  intros Hp Ha. cbn [attempt_loop]. unfold bind, ChatCompletion_create.
  rewrite Hp. unfold _handle_api_error.
  replace (a <? max_retries config) with true by (symmetry; apply Z.ltb_lt; lia).
  unfold bind, time_sleep, ret. now rewrite <- app_assoc.
Qed.

(** Away from that path, a successful response carries the text of a
    completion. *)
Lemma loop_success_content config (p : provider) :
  (forall a text n, p a = Completion text n -> text <> "") ->
  forall attempts log r log',
    (forall a, In a attempts -> p a = APIError -> max_retries config <= a) ->
    attempt_loop config p attempts log = (r, log') ->
    success r = true -> content r <> "".
Proof.
  intros Htext attempts.
  induction attempts as [|a rest IH]; intros log r log' Hapi Hrun Hok.
  - cbn in Hrun. unfold ret in Hrun. inversion Hrun; subst. discriminate.
  - cbn [attempt_loop] in Hrun. unfold bind, ChatCompletion_create in Hrun.
    destruct (p a) as [text n| | | | | |] eqn:Hs.
    + unfold ret in Hrun. inversion Hrun; subst. cbn. eauto.
    + unfold _handle_rate_limit_error in Hrun.
      destruct (a <? max_retries config).
      * unfold bind, time_sleep, ret in Hrun. cbn in Hrun.
        eapply IH; eauto. intros b Hb. apply Hapi. now right.
      * unfold ret in Hrun. cbn in Hrun. inversion Hrun; subst. discriminate.
    + unfold _handle_api_error in Hrun.
      assert (Hge : max_retries config <= a)
        by (apply Hapi; [now left | exact Hs]).
      replace (a <? max_retries config) with false in Hrun
        by (symmetry; apply Z.ltb_ge; lia).
      unfold ret in Hrun. inversion Hrun; subst. discriminate.
    + unfold ret in Hrun. inversion Hrun; subst. discriminate.
    + unfold ret in Hrun. inversion Hrun; subst. discriminate.
    + unfold ret in Hrun. inversion Hrun; subst. discriminate.
    + unfold ret in Hrun. inversion Hrun; subst. discriminate.
Qed.

(** *** One call of [generate_response] *)

Lemma generate_response_run config p t0 t1 self :
  run (generate_response config p t0 t1 self)
  = let r := fst (run (_make_request_with_retry config p)) in
    ((with_response_time r (t1 - t0)%Q,
      {| total_requests := total_requests self + 1;
         successful_requests :=
           if success r then successful_requests self + 1
           else successful_requests self;
         failed_requests :=
           if success r then failed_requests self
           else failed_requests self + 1;
         total_tokens_used :=
           if success r then total_tokens_used self + tokens_used r
           else total_tokens_used self;
         total_response_time := (total_response_time self + (t1 - t0))%Q |}),
     snd (run (_make_request_with_retry config p))).
Proof.
  unfold run, generate_response, bind, ret.
  destruct (_make_request_with_retry config p []) as [r log]. reflexivity.
Qed.

(** C1, evaluated where the code departs from it.  With [max_retries = 3] the
    provider raises [APIError] at the first attempt and would answer
    "real answer" at the second.  [generate_response] issues one request,
    sleeps one second, and returns [success = True] with empty content and
    [attempt_count = 1]: the second request is never made. *)
Theorem api_error_skips_retry :
  let r := outcome default_config fails_once_then_succeeds 0 0 _reset_statistics in
  fails_once_then_succeeds 1 = Completion "real answer" 25
  /\ success r = true
  /\ content r = ""
  /\ attempt_count r = 1
  /\ effects default_config fails_once_then_succeeds 0 0 _reset_statistics
     = [EvRequest 0; EvSleep 1].
Proof. repeat split. Qed.

(** C2, evaluated where the code departs from it.  Against a provider that
    raises [APIError] at every attempt, with [max_retries = 3],
    [generate_response] returns [success = True] with empty content after a
    single request, and counts the call as successful. *)
Theorem api_error_success_without_content :
  let r := outcome default_config always_api_error 0 0 _reset_statistics in
  success r = true
  /\ content r = ""
  /\ successful_requests
       (client_after default_config always_api_error 0 0 _reset_statistics) = 1
  /\ requests (effects default_config always_api_error 0 0 _reset_statistics)
     = [0].
Proof. repeat split. Qed.

(** C3.  For a configured [max_retries >= 0] and a provider that raises the
    rate-limit signal at every attempt, [generate_response] returns a failure
    with [error_type = RATE_LIMIT] and [attempt_count = max_retries + 1]; it
    issues exactly the requests [0 .. max_retries], and after each of them
    but the last it sleeps [min(2^attempt, 60)] seconds. *)
Theorem rate_limit_exhausts_retries config (p : provider) t0 t1 self :
  0 <= max_retries config ->
  (forall a, 0 <= a <= max_retries config -> p a = RateLimitError) ->
  let r := outcome config p t0 t1 self in
  let log := effects config p t0 t1 self in
  success r = false
  /\ error_type r = Some RATE_LIMIT
  /\ attempt_count r = max_retries config + 1
  /\ log = rate_limit_trace (max_retries config)
  /\ requests log = range (max_retries config + 1)
  /\ Z.of_nat (length (requests log)) = max_retries config + 1
  /\ sleeps log = map (fun a => Z.min (2 ^ a) 60) (range (max_retries config)).
Proof.
  intros Hm Hp r log. subst r log. unfold outcome, effects.
  rewrite generate_response_run, (retry_rate_limited config p Hm Hp).
  cbn [fst snd success error_type attempt_count with_response_time
       rate_limit_failure].
  assert (Hreq : requests (rate_limit_trace (max_retries config))
                 = range (max_retries config + 1)).
  { unfold rate_limit_trace. rewrite requests_app, requests_backoff.
    rewrite range_snoc by lia. reflexivity. }
  repeat split.
  - exact Hreq.
  - rewrite Hreq, length_range. lia.
  - unfold rate_limit_trace. rewrite sleeps_app, sleeps_backoff.
    cbn. apply app_nil_r.
Qed.

Lemma rate_limit_exhausts_retries_witness :
  0 <= max_retries default_config
  /\ (forall a, 0 <= a <= max_retries default_config ->
        always_rate_limited a = RateLimitError)
  /\ effects default_config always_rate_limited 0 0 _reset_statistics
     = [EvRequest 0; EvSleep 1; EvRequest 1; EvSleep 2;
        EvRequest 2; EvSleep 4; EvRequest 3].
Proof.
  assert (H0 : 0 <= max_retries default_config) by (cbn; lia).
  assert (Hp : forall a, 0 <= a <= max_retries default_config ->
                 always_rate_limited a = RateLimitError) by reflexivity.
  split; [exact H0 | split; [exact Hp |]].
  exact (proj1 (proj2 (proj2 (proj2
    (rate_limit_exhausts_retries default_config always_rate_limited 0 0
       _reset_statistics H0 Hp))))).
Defined.

(** C8.  For a configured [max_retries >= 0], when the first attempt raises
    the authentication signal, [generate_response] returns a failure with
    [error_type = AUTHENTICATION] and [attempt_count = 1] after exactly one
    request and no sleep. *)
Theorem authentication_failure_no_retry config (p : provider) t0 t1 self :
  0 <= max_retries config ->
  p 0 = AuthenticationError ->
  let r := outcome config p t0 t1 self in
  let log := effects config p t0 t1 self in
  success r = false
  /\ error_type r = Some AUTHENTICATION
  /\ attempt_count r = 1
  /\ log = [EvRequest 0]
  /\ requests log = [0]
  /\ sleeps log = [].
Proof.
  intros Hm Hp r log. subst r log. unfold outcome, effects.
  rewrite generate_response_run.
  unfold run, _make_request_with_retry. rewrite range_cons by lia.
  cbn [attempt_loop]. unfold bind, ChatCompletion_create. rewrite Hp.
  cbn. repeat split.
Qed.

Lemma authentication_failure_no_retry_witness :
  0 <= max_retries default_config
  /\ rejects_credentials 0 = AuthenticationError
  /\ attempt_count
       (outcome default_config rejects_credentials 0 0 _reset_statistics) = 1.
Proof.
  assert (H0 : 0 <= max_retries default_config) by (cbn; lia).
  split; [exact H0 | split; [reflexivity |]].
  exact (proj1 (proj2 (proj2
    (authentication_failure_no_retry default_config rejects_credentials 0 0
       _reset_statistics H0 eq_refl)))).
Defined.

(** C7, as amended.  Every call adds one to [total_requests] and adds the
    elapsed time to [total_response_time], whether the outcome is a success
    or a failure.  A success also adds one to [successful_requests] and its
    [tokens_used] to [total_tokens_used], leaving [failed_requests] alone; a
    failure also adds one to [failed_requests], leaving
    [successful_requests] and [total_tokens_used] alone.  After three
    successful calls of 10, 20 and 30 tokens and one failed call on a fresh
    client the snapshot reads 4 / 3 / 1 requests, 60 tokens and a success
    rate of 75; on a fresh client the success rate and the average response
    time are both 0. *)
Theorem statistics_accounting config :
  (forall (p : provider) (t0 t1 : Q) (self : AIClient),
     let r := outcome config p t0 t1 self in
     let self' := client_after config p t0 t1 self in
     total_requests self' = total_requests self + 1
     /\ response_time r = (t1 - t0)%Q
     /\ total_response_time self' = (total_response_time self + (t1 - t0))%Q
     /\ (if success r
         then successful_requests self' = successful_requests self + 1
              /\ total_tokens_used self' = total_tokens_used self + tokens_used r
              /\ failed_requests self' = failed_requests self
         else failed_requests self' = failed_requests self + 1
              /\ successful_requests self' = successful_requests self
              /\ total_tokens_used self' = total_tokens_used self))
  /\ (forall (p1 p2 p3 p4 : provider) (a1 b1 a2 b2 a3 b3 a4 b4 : Q),
        let s0 := _reset_statistics in
        let s1 := client_after config p1 a1 b1 s0 in
        let s2 := client_after config p2 a2 b2 s1 in
        let s3 := client_after config p3 a3 b3 s2 in
        let s4 := client_after config p4 a4 b4 s3 in
        let st := get_statistics config s4 in
        success (outcome config p1 a1 b1 s0) = true ->
        tokens_used (outcome config p1 a1 b1 s0) = 10 ->
        success (outcome config p2 a2 b2 s1) = true ->
        tokens_used (outcome config p2 a2 b2 s1) = 20 ->
        success (outcome config p3 a3 b3 s2) = true ->
        tokens_used (outcome config p3 a3 b3 s2) = 30 ->
        success (outcome config p4 a4 b4 s3) = false ->
        Stats.total_requests st = 4
        /\ Stats.successful_requests st = 3
        /\ Stats.failed_requests st = 1
        /\ Stats.total_tokens_used st = 60
        /\ (Stats.success_rate_percent st == 75)%Q)
  /\ (let st := get_statistics config _reset_statistics in
      (Stats.success_rate_percent st == 0)%Q
      /\ (Stats.average_response_time_seconds st == 0)%Q).
Proof.
  split; [| split].
  - intros p t0 t1 self r self'. subst r self'. unfold outcome, client_after.
    rewrite generate_response_run. cbn [fst snd].
    destruct (success (fst (run (_make_request_with_retry config p)))) eqn:Hs;
      cbn; rewrite ?Hs; repeat split.
  - intros p1 p2 p3 p4 a1 b1 a2 b2 a3 b3 a4 b4 s0 s1 s2 s3 s4 st.
    subst st s4 s3 s2 s1. unfold outcome, client_after.
    rewrite !generate_response_run. cbn [fst snd].
    cbn [success tokens_used with_response_time].
    intros H1 T1 H2 T2 H3 T3 H4. rewrite H1, H2, H3, H4, T1, T2, T3.
    cbn. repeat split.
  - cbn. split; reflexivity.
Qed.

Lemma statistics_accounting_witness :
  let config := default_config in
  let s0 := _reset_statistics in
  let s1 := client_after config (answers "a" 10) 0 1 s0 in
  let s2 := client_after config (answers "b" 20) 1 2 s1 in
  let s3 := client_after config (answers "c" 30) 2 3 s2 in
  let s4 := client_after config rejects_credentials 3 4 s3 in
  success (outcome config (answers "a" 10) 0 1 s0) = true
  /\ success (outcome config rejects_credentials 3 4 s3) = false
  /\ Stats.total_tokens_used (get_statistics config s4) = 60
  /\ (Stats.success_rate_percent (get_statistics config s4) == 75)%Q.
Proof.
  intros config s0 s1 s2 s3 s4.
  pose proof (proj1 (proj2 (statistics_accounting default_config))
                (answers "a" 10) (answers "b" 20) (answers "c" 30)
                rejects_credentials 0%Q 1%Q 1%Q 2%Q 2%Q 3%Q 3%Q 4%Q
                eq_refl eq_refl eq_refl eq_refl eq_refl eq_refl eq_refl)
    as (_ & _ & _ & Htok & Hrate).
  split; [reflexivity | split; [reflexivity | split; [exact Htok | exact Hrate]]].
Defined.

(** C7 as stated fails: a call that is refused for its credentials, taking
    one second, returns a failure and still moves [total_response_time]
    from 0 to 1. *)
Lemma failure_accumulates_response_time :
  let self' :=
    client_after default_config rejects_credentials 0 1 _reset_statistics in
  success (outcome default_config rejects_credentials 0 1 _reset_statistics)
  = false
  /\ failed_requests self' = 1
  /\ (total_response_time self' == 1)%Q
  /\ ~ (total_response_time self' == total_response_time _reset_statistics)%Q.
Proof. cbn. repeat split. intros H. discriminate H. Qed.

End AiClientProps.

(* ===================================================================== *)
(** ** Properties of the conversation store *)
(* ===================================================================== *)
Module ConversationProps.
Import Conversation.

(** *** [str.strip] *)

Lemma blank_lstrip s : blank (lstrip s) = blank s.
Proof.
  induction s as [|c s IH]; [reflexivity |].
  cbn [lstrip blank]. destruct (isspace c) eqn:Hc; [exact IH |].
  cbn [blank]. now rewrite Hc.
Qed.

Lemma rstrip_empty s : rstrip s = "" <-> blank s = true.
Proof.
  induction s as [|c s IH]; [cbn; tauto |].
  cbn [rstrip blank]. destruct (rstrip s) as [|c' s'] eqn:Hr.
  - destruct (isspace c); cbn.
    + split; [intros _; now apply IH | reflexivity].
    + split; discriminate.
  - split; [discriminate |]. intros H. apply andb_true_iff in H as [_ H].
    apply IH in H. discriminate.
Qed.

(** The test [not text.strip()] holds exactly for blank texts. *)
Lemma strip_empty s : String.eqb (strip s) "" = blank s.
Proof.
  unfold strip. rewrite <- blank_lstrip.
  destruct (blank (lstrip s)) eqn:Hb.
  - apply String.eqb_eq. now apply rstrip_empty.
  - apply String.eqb_neq. intros H. apply rstrip_empty in H. congruence.
Qed.

Lemma lstrip_split s : exists l, s = l +:+ lstrip s /\ blank l = true.
Proof.
  induction s as [|c s (l & Hl & Hb)]; [exists ""; split; reflexivity |].
  cbn [lstrip]. destruct (isspace c) eqn:Hc.
  - exists (String c l). split.
    + change (String c s = String c (l +:+ lstrip s)). now rewrite <- Hl.
    + cbn [blank]. now rewrite Hc, Hb.
  - exists "". split; reflexivity.
Qed.

Lemma rstrip_split s : exists r, s = rstrip s +:+ r /\ blank r = true.
Proof.
  induction s as [|c s (r & Hr & Hb)]; [exists ""; split; reflexivity |].
  cbn [rstrip]. destruct (rstrip s) as [|c' s'] eqn:Hs.
  - change (s = r) in Hr. subst r. destruct (isspace c) eqn:Hc.
    + exists (String c s). split; [reflexivity |]. cbn [blank].
      now rewrite Hc, Hb.
    + exists s. split; [reflexivity | exact Hb].
  - exists r. split; [| exact Hb].
    change (String c s = String c (String c' s' +:+ r)). now rewrite <- Hr.
Qed.

(** [strip] removes a blank prefix and a blank suffix, nothing else. *)
Lemma strip_split s :
  exists l r, s = l +:+ strip s +:+ r /\ blank l = true /\ blank r = true.
Proof.
  destruct (lstrip_split s) as (l & Hl & Hbl).
  destruct (rstrip_split (lstrip s)) as (r & Hr & Hbr).
  exists l, r. unfold strip. now rewrite <- Hr.
Qed.

Lemma lstrip_first s c : first_char (lstrip s) = Some c -> isspace c = false.
Proof.
  induction s as [|c' s IH]; [discriminate |].
  cbn [lstrip]. destruct (isspace c') eqn:Hc; [exact IH |].
  cbn. intros [= <-]. exact Hc.
Qed.

Lemma rstrip_last s c : last_char (rstrip s) = Some c -> isspace c = false.
Proof.
  induction s as [|c' s IH]; [discriminate |].
  cbn [rstrip]. destruct (rstrip s) as [|c2 s2] eqn:Hs.
  - destruct (isspace c') eqn:Hc; [discriminate |]. cbn. intros [= <-]. exact Hc.
  - intros H. apply IH. exact H.
Qed.

Lemma rstrip_first s c :
  first_char s = Some c -> isspace c = false -> first_char (rstrip s) = Some c.
Proof.
  destruct s as [|c' s]; [discriminate |]. cbn [first_char]. intros [= ->] Hc.
  cbn [rstrip]. destruct (rstrip s); [now rewrite Hc | reflexivity].
Qed.

(** What [strip] leaves neither starts nor ends with whitespace. *)
Lemma strip_trimmed s :
  (forall c, first_char (strip s) = Some c -> isspace c = false)
  /\ (forall c, last_char (strip s) = Some c -> isspace c = false).
Proof.
  split; intros c Hc; [| now apply (rstrip_last (lstrip s))].
  unfold strip in Hc. destruct (lstrip s) as [|c' s'] eqn:Hl; [discriminate |].
  assert (Hsp : isspace c' = false) by (apply (lstrip_first s); now rewrite Hl).
  rewrite (rstrip_first (String c' s') c' eq_refl Hsp) in Hc.
  now injection Hc as <-.
Qed.

(** *** Records and dictionaries *)

Lemma _asdict_inner_id v : _asdict_inner v = v.
Proof.
  induction v as [| | | | |items IH|fields IH] using json_nested_ind;
    try reflexivity; cbn [_asdict_inner]; f_equal.
  - induction IH as [|x l Hx _ IHl]; [reflexivity |]. cbn. now rewrite Hx, IHl.
  - induction IH as [|[k x] l Hx _ IHl]; [reflexivity |]. cbn in *.
    now rewrite Hx, IHl.
Qed.

Lemma to_dict_fields c :
  to_dict c
  = JObj [("timestamp", timestamp c); ("user", user c);
          ("assistant", assistant c); ("tokens_used", tokens_used c);
          ("model_used", model_used c); ("response_time", response_time c);
          ("metadata", metadata c)].
Proof. unfold to_dict. now rewrite !_asdict_inner_id. Qed.

Lemma to_dict_complete c : complete_record (to_dict c).
Proof. rewrite to_dict_fields. constructor. Qed.

Lemma from_dict_to_dict now c : from_dict now (to_dict c) = Ok c.
Proof. rewrite to_dict_fields. destruct c. reflexivity. Qed.

Lemma to_dict_from_dict now item c :
  complete_record item -> from_dict now item = Ok c -> to_dict c = item.
Proof.
  intros [ts u a tk m rt md] H. cbn in H. injection H as <-.
  now rewrite to_dict_fields.
Qed.

Lemma complete_record_loads now item :
  complete_record item -> exists c, from_dict now item = Ok c.
Proof. intros [ts u a tk m rt md]. eexists. reflexivity. Qed.

Lemma from_dicts_complete now data :
  Forall complete_record data ->
  forall i, exists convs,
    from_dicts now i data = Ok convs /\ map to_dict convs = data.
Proof.
  induction 1 as [|item data Hitem _ IH]; intros i.
  - exists []. split; reflexivity.
  - destruct (complete_record_loads (now i) item Hitem) as [c Hc].
    destruct (IH (S i)) as (cs & Hcs & Hmap).
    exists (c :: cs). cbn [from_dicts]. rewrite Hc, Hcs. split; [reflexivity |].
    cbn. now rewrite (to_dict_from_dict (now i) item c Hitem Hc), Hmap.
Qed.

(** [l[-k:]] for a positive [k]: the last [k] elements. *)
Lemma slice_from_last {A} (k : Z) (l : list A) :
  0 < k -> slice_from (- k) l = drop (length l - Z.to_nat k) l.
Proof.
  intros Hk. unfold slice_from.
  replace (- k <? 0) with true by (symmetry; apply Z.ltb_lt; lia).
  f_equal. lia.
Qed.

(** *** Loading *)

Lemma load_complete cfg path now stamp (fs : disk) data :
  fs !! path = Some (JsonText (JArr data)) ->
  Forall complete_record data ->
  exists convs,
    init cfg path now stamp fs
    = ({| config := cfg; file_path := path; _conversations := convs |}, fs)
    /\ map to_dict convs = data.
Proof.
  intros Hfile Hdata.
  destruct (from_dicts_complete now data Hdata 0%nat) as (convs & Hload & Hmap).
  exists convs. split; [| exact Hmap].
  unfold init, _load_conversations. cbn [file_path]. rewrite Hfile.
  cbn [json_load]. now rewrite Hload.
Qed.

(** A file that cannot be read as JSON: empty history, and a backup exactly
    when [backup_on_corruption] is set. *)
Lemma load_unparsable cfg path now stamp (fs : disk) c :
  fs !! path = Some c -> c = Undecodable \/ c = NotJson ->
  let self := {| config := cfg; file_path := path; _conversations := [] |} in
  init cfg path now stamp fs
  = (self,
     if backup_on_corruption cfg
     then <[backup_path self
              (match c with
               | NotJson => "corrupted_json_decode_error"
               | _ => "corrupted_unexpected_error"
               end) stamp := c]> fs
     else fs).
Proof.
  intros Hfile Hc self. unfold init, _load_conversations. cbn [file_path].
  rewrite Hfile.
  destruct Hc as [-> | ->]; cbn [json_load]; unfold _handle_corrupted_file,
    _create_backup; cbn [config file_path]; rewrite Hfile;
    destruct (backup_on_corruption cfg); reflexivity.
Qed.

(** A JSON file whose top-level value is not a list: empty history, and a
    backup whatever the flag says. *)
Lemma load_not_a_list cfg path now stamp (fs : disk) v :
  fs !! path = Some (JsonText v) -> (forall data, v <> JArr data) ->
  let self := {| config := cfg; file_path := path; _conversations := [] |} in
  init cfg path now stamp fs
  = (self, <[backup_path self "invalid_format" stamp := JsonText v]> fs).
Proof.
  intros Hfile Hv self. unfold init, _load_conversations. cbn [file_path].
  rewrite Hfile. cbn [json_load].
  destruct v; try (unfold _create_backup; cbn [file_path]; rewrite Hfile;
                   reflexivity).
  now destruct (Hv items).
Qed.

(** C4, evaluated where the code departs from it.  The backing file holds a
    JSON object and [backup_on_corruption] is off.  Loading leaves the
    history empty, and a file
    [conversations.invalid_format_20240101_120000.backup] that did not exist
    before now holds a copy of the backing file.  With the same
    configuration a file that is not JSON at all is discarded without a
    backup. *)
Theorem invalid_format_backup_ignores_flag :
  let fs : disk := {[ "conversations.json" := JsonText wrong_shape ]} in
  let loaded :=
    init (demo_config false) "conversations.json" demo_now demo_stamp fs in
  let backup := "conversations.invalid_format_20240101_120000.backup" in
  backup_on_corruption (demo_config false) = false
  /\ _conversations (fst loaded) = []
  /\ fs !! backup = None
  /\ snd loaded !! backup = Some (JsonText wrong_shape)
  /\ snd (init (demo_config false) "conversations.json" demo_now demo_stamp
            {[ "conversations.json" := NotJson ]})
     = {[ "conversations.json" := NotJson ]}.
Proof.
  intros fs loaded backup. subst loaded.
  rewrite (load_not_a_list (demo_config false) "conversations.json" demo_now
             demo_stamp fs wrong_shape (lookup_singleton_eq _ _))
    by (intros data; discriminate).
  rewrite (load_unparsable (demo_config false) "conversations.json" demo_now
             demo_stamp {[ "conversations.json" := NotJson ]} NotJson
             (lookup_singleton_eq _ _) (or_intror eq_refl)).
  cbn [fst snd _conversations backup_on_corruption demo_config].
  split; [reflexivity |]. split; [reflexivity |].
  split; [subst fs; now rewrite lookup_singleton_ne |].
  split; [| reflexivity].
  change (backup_path _ "invalid_format" demo_stamp) with backup.
  apply lookup_insert_eq.
Qed.

(** *** [add_exchange] *)

(** C9.  When either text is blank (empty, or whitespace only),
    [add_exchange] returns the manager and the disk as they were.  Otherwise
    the history afterwards is the old history followed by exactly one
    exchange, whose [user] and [assistant] are the stripped texts, both
    non-empty. *)
Theorem add_exchange_validates now u a tokens mdl rt meta self fs :
  let res := add_exchange now u a tokens mdl rt meta self fs in
  if blank u || blank a
  then res = (self, fs)
  else exists e,
      _conversations (fst res) = _conversations self ++ [e]
      /\ user e = JStr (strip u) /\ assistant e = JStr (strip a)
      /\ strip u <> "" /\ strip a <> "".
Proof.
  intros res. subst res. unfold add_exchange. rewrite !strip_empty.
  destruct (blank u) eqn:Hu, (blank a) eqn:Ha; cbn [orb]; try reflexivity.
  eexists. cbn. repeat split.
  - intros H. apply String.eqb_eq in H. rewrite strip_empty in H. congruence.
  - intros H. apply String.eqb_eq in H. rewrite strip_empty in H. congruence.
Qed.

Example add_exchange_rejects_empty self fs :
  add_exchange "t" "" "x" 0 "" 0 None self fs = (self, fs)
  /\ add_exchange "t" "x" "" 0 "" 0 None self fs = (self, fs)
  /\ add_exchange "t" "  " "y" 0 "" 0 None self fs = (self, fs).
Proof. repeat split. Qed.

Example add_exchange_strips :
  _conversations
    (fst (add_exchange "t" "  hi " "there  " 7 "m" 0 None
            (demo_manager 20 true []) ∅))
  = [{| timestamp := JStr "t"; user := JStr "hi"; assistant := JStr "there";
        tokens_used := JInt 7; model_used := JStr "m";
        response_time := JFloat 0; metadata := JNull |}].
Proof. reflexivity. Qed.

(** *** [optimize_storage] *)

(** C5.  For a store of [N] exchanges and [0 < k < N],
    [optimize_storage(max_exchanges=k)] returns [N - k] and leaves exactly
    the last [k] exchanges, in their original order.  Without an explicit
    [max_exchanges] the threshold is ten times [max_history_context], and
    whenever the size does not exceed the threshold in force the call returns
    0 and changes neither the store nor the disk. *)
Theorem optimize_storage_keeps_recent :
  (forall (k : Z) stamp self fs,
     let N := Z.of_nat (length (_conversations self)) in
     0 < k < N ->
     let res := optimize_storage (Some k) stamp self fs in
     let kept := _conversations (snd (fst res)) in
     fst (fst res) = N - k
     /\ Z.of_nat (length kept) = k
     /\ kept = drop (Z.to_nat (N - k)) (_conversations self)
     /\ _conversations self
        = take (Z.to_nat (N - k)) (_conversations self) ++ kept)
  /\ (forall mx stamp self fs,
        let threshold :=
          or_default mx (max_history_context (config self) * 10) in
        or_default None (max_history_context (config self) * 10)
        = 10 * max_history_context (config self)
        /\ (max_history_context (config self) <> 0 ->
            optimize_storage None stamp self fs
            = optimize_storage
                (Some (10 * max_history_context (config self))) stamp self fs)
        /\ (Z.of_nat (length (_conversations self)) <= threshold ->
            optimize_storage mx stamp self fs = (0, self, fs))).
Proof.
  split.
  - intros k stamp self fs N Hk res kept. subst res kept.
    assert (Hres : optimize_storage (Some k) stamp self fs
      = (N - k,
         set_conversations self
           (drop (Z.to_nat (N - k)) (_conversations self)),
         let fs1 := snd (_create_backup "before_optimization" stamp self fs) in
         if auto_save (config self)
         then _save_conversations
                (set_conversations self
                   (drop (Z.to_nat (N - k)) (_conversations self))) fs1
         else fs1)).
    { unfold optimize_storage. cbn [or_default].
      replace (k =? 0) with false by (symmetry; apply Z.eqb_neq; lia).
      fold N. replace (N <=? k) with false by (symmetry; apply Z.leb_gt; lia).
      rewrite slice_from_last by lia.
      replace (length (_conversations self) - Z.to_nat k)%nat
        with (Z.to_nat (N - k)) by lia.
      reflexivity. }
    rewrite Hres. cbn [fst snd _conversations set_conversations].
    split; [reflexivity |]. split; [rewrite length_drop; lia |].
    split; [reflexivity |]. symmetry. apply take_drop.
  - intros mx stamp self fs. split; [cbn; lia |]. split.
    + intros Hctx. unfold optimize_storage. cbn [or_default].
      replace (10 * max_history_context (config self) =? 0) with false
        by (symmetry; apply Z.eqb_neq; lia).
      now rewrite (Z.mul_comm (max_history_context (config self)) 10).
    + intros Hle. apply Z.leb_le in Hle. unfold optimize_storage.
      now rewrite Hle.
Qed.

Lemma optimize_storage_keeps_recent_witness :
  let self := demo_manager 20 true
                [demo_exchange 1; demo_exchange 2; demo_exchange 3] in
  0 < 2 < Z.of_nat (length (_conversations self))
  /\ fst (fst (optimize_storage (Some 2) demo_stamp self ∅)) = 1
  /\ _conversations (snd (fst (optimize_storage (Some 2) demo_stamp self ∅)))
     = [demo_exchange 2; demo_exchange 3].
Proof.
  intros self.
  assert (Hk : 0 < 2 < Z.of_nat (length (_conversations self))) by (cbn; lia).
  split; [exact Hk |].
  destruct (proj1 optimize_storage_keeps_recent 2 demo_stamp self ∅ Hk)
    as (Hn & _ & Hkept & _).
  split; [exact Hn | exact Hkept].
Defined.

(** *** [get_recent_context] *)

(** C10, as amended.  An explicit [max_exchanges] of 0 gives exactly what
    omitting the parameter gives.  In general, with [limit] the parameter if
    it is given and not 0 and [max_history_context] otherwise, the call
    returns the entries of the last [min(limit, size)] exchanges when
    [limit > 0] and the empty list when [limit <= 0]; so the result is empty
    exactly when the store is empty or [limit <= 0].  The manager is
    returned unchanged. *)
Theorem get_recent_context_zero_is_default md self :
  get_recent_context (Some 0) md self = get_recent_context None md self
  /\ (forall mx, snd (get_recent_context mx md self) = self)
  /\ (forall mx,
        let limit := or_default mx (max_history_context (config self)) in
        let result := fst (get_recent_context mx md self) in
        result
        = map (context_entry md)
            (if 0 <? limit
             then drop (length (_conversations self) - Z.to_nat limit)
                       (_conversations self)
             else [])
        /\ Z.of_nat (length result)
           = (if 0 <? limit
              then Z.min limit (Z.of_nat (length (_conversations self)))
              else 0)
        /\ (result = [] <-> _conversations self = [] \/ limit <= 0)).
Proof.
  split; [reflexivity | split; [reflexivity |]].
  intros mx limit result. subst result. unfold get_recent_context.
  fold limit. cbn [fst].
  destruct (0 <? limit) eqn:Hl.
  - apply Z.ltb_lt in Hl. rewrite slice_from_last by exact Hl.
    split; [reflexivity |]. rewrite length_map, length_drop.
    split; [lia |]. split.
    + intros H. left. apply (f_equal (@length _)) in H.
      rewrite length_map, length_drop in H. cbn in H.
      destruct (_conversations self); [reflexivity | cbn in H; lia].
    + intros [-> | H]; [now rewrite drop_nil | lia].
  - apply Z.ltb_ge in Hl. repeat split; intros; try reflexivity. now right.
Qed.

(** C10 as stated fails: with [max_history_context = 0] and one stored
    exchange, and with [max_history_context = 20] and an empty store, an
    explicit [max_exchanges] of 0 returns the empty list. *)
Lemma explicit_zero_can_return_empty :
  fst (get_recent_context (Some 0) false (demo_manager 0 true [demo_exchange 1]))
  = []
  /\ fst (get_recent_context (Some 0) false (demo_manager 20 true [])) = [].
Proof. split; reflexivity. Qed.

Example explicit_zero_falls_back :
  fst (get_recent_context (Some 0) false
         (demo_manager 1 true [demo_exchange 1; demo_exchange 2]))
  = [context_entry false (demo_exchange 2)].
Proof. reflexivity. Qed.

(** *** Load, then export *)

(** C6, as amended.  Let the backing file hold a JSON array of complete
    exchange records.  Loading yields, in file order, exchanges whose
    dictionaries are those records, and does not touch the disk.  If the
    array is not empty, exporting as JSON succeeds and the exported file
    holds the same array as the backing file.  If the array is empty, the
    export returns [False] and writes nothing. *)
Theorem load_export_round_trip cfg path now stamp out (fs : disk) data :
  fs !! path = Some (JsonText (JArr data)) ->
  Forall complete_record data ->
  let loaded := init cfg path now stamp fs in
  let exported := export_conversations out JSON (fst loaded) (snd loaded) in
  map to_dict (_conversations (fst loaded)) = data
  /\ snd loaded = fs
  /\ match data with
     | [] => exported = (false, fs)
     | _ :: _ =>
         fst exported = true
         /\ snd exported = <[out := JsonText (JArr data)]> fs
         /\ snd exported !! out = fs !! path
     end.
Proof.
  intros Hfile Hdata loaded exported. subst exported loaded.
  destruct (load_complete cfg path now stamp fs data Hfile Hdata)
    as (convs & -> & Hmap).
  cbn [fst snd _conversations]. split; [exact Hmap |]. split; [reflexivity |].
  unfold export_conversations, _export_json. cbn [_conversations].
  destruct convs as [|c convs]; cbn in Hmap; subst data; [reflexivity |].
  cbn [fst snd]. split; [reflexivity |]. split; [reflexivity |].
  now rewrite lookup_insert_eq, Hfile.
Qed.

Lemma load_export_round_trip_witness :
  let data := [to_dict (demo_exchange 20); to_dict (demo_exchange 35)] in
  let fs : disk := {[ "conversations.json" := JsonText (JArr data) ]} in
  let loaded :=
    init (demo_config true) "conversations.json" demo_now demo_stamp fs in
  fs !! "conversations.json" = Some (JsonText (JArr data))
  /\ Forall complete_record data
  /\ _conversations (fst loaded) = [demo_exchange 20; demo_exchange 35]
  /\ snd (export_conversations "export.json" JSON (fst loaded) (snd loaded))
       !! "export.json" = Some (JsonText (JArr data)).
Proof.
  intros data fs loaded.
  assert (Hfile : fs !! "conversations.json" = Some (JsonText (JArr data)))
    by apply lookup_singleton_eq.
  assert (Hdata : Forall complete_record data)
    by (repeat constructor).
  split; [exact Hfile | split; [exact Hdata |]].
  destruct (load_export_round_trip (demo_config true) "conversations.json"
              demo_now demo_stamp "export.json" fs data Hfile Hdata)
    as (_ & _ & _ & _ & Hout).
  split; [reflexivity |]. subst loaded. rewrite Hout. exact Hfile.
Defined.

(** C6 as stated fails: a backing file holding the empty array, which is
    what a save of an empty store writes, loads as an empty store, and the
    export that follows returns [False] and leaves no exported file. *)
Lemma export_of_empty_history_writes_nothing :
  let fs : disk := {[ "conversations.json" := JsonText (JArr []) ]} in
  let loaded :=
    init (demo_config true) "conversations.json" demo_now demo_stamp fs in
  let exported :=
    export_conversations "export.json" JSON (fst loaded) (snd loaded) in
  _save_conversations (demo_manager 20 true []) ∅ = fs
  /\ Forall complete_record []
  /\ _conversations (fst loaded) = []
  /\ fst exported = false
  /\ snd exported !! "export.json" = None.
Proof.
  intros fs loaded exported.
  destruct (load_complete (demo_config true) "conversations.json" demo_now
              demo_stamp fs [] (lookup_singleton_eq _ _) (List.Forall_nil _))
    as (convs & Hload & Hmap).
  destruct convs; [| discriminate Hmap].
  subst exported loaded. rewrite Hload. cbn [fst snd _conversations].
  split.
  { unfold _save_conversations. cbn [file_path demo_manager _conversations map].
    rewrite delete_insert_eq, delete_empty. reflexivity. }
  split; [constructor |]. split; [reflexivity |].
  unfold export_conversations. cbn [_conversations fst snd].
  split; [reflexivity |]. subst fs. now rewrite lookup_singleton_ne.
Qed.

End ConversationProps.

(* ===================================================================== *)
(** ** Further properties of the request client *)
(* ===================================================================== *)
Module ClientExtras.
Import AiClient Assistant AiClientProps.

(** *** Rate-limited attempts followed by another signal *)

(** A rate-limited stretch of attempts below [max_retries] is passed with
    one backoff per attempt. *)
Lemma loop_rate_limited_prefix config (p : provider) :
  forall j a0 tail log,
    (forall a, Z.of_nat a0 <= a < Z.of_nat a0 + Z.of_nat j ->
               p a = RateLimitError) ->
    Z.of_nat a0 + Z.of_nat j <= max_retries config ->
    attempt_loop config p (map Z.of_nat (seq a0 j) ++ tail) log
    = attempt_loop config p tail
        (log ++ flat_map backoff_step (map Z.of_nat (seq a0 j))).
Proof.
  induction j as [|j IH]; intros a0 tail log Hp Hmax.
  - cbn. now rewrite app_nil_r.
  - cbn [seq map app attempt_loop]. unfold bind at 1, ChatCompletion_create.
    rewrite Hp by lia. unfold bind at 1, _handle_rate_limit_error.
    replace (Z.of_nat a0 <? max_retries config) with true
      by (symmetry; apply Z.ltb_lt; lia).
    unfold bind at 1, time_sleep, ret. cbn [success AIResponse_default negb].
    rewrite IH by (try (intros a Ha; apply Hp); lia).
    cbn [flat_map]. unfold backoff_step at 3. now rewrite <- !app_assoc.
Qed.

Lemma range_split k m :
  0 <= k <= m ->
  range (m + 1)
  = range k ++ k :: map Z.of_nat (seq (S (Z.to_nat k)) (Z.to_nat (m - k))).
Proof.
  intros Hk. unfold range.
  replace (Z.to_nat (m + 1)) with (Z.to_nat k + S (Z.to_nat (m - k)))%nat by lia.
  rewrite seq_app, map_app. cbn [seq map Nat.add]. now rewrite Z2Nat.id by lia.
Qed.

Lemma retry_after_rate_limits config (p : provider) k :
  0 <= k <= max_retries config ->
  (forall a, 0 <= a < k -> p a = RateLimitError) ->
  run (_make_request_with_retry config p)
  = attempt_loop config p
      (k :: map Z.of_nat (seq (S (Z.to_nat k)) (Z.to_nat (max_retries config - k))))
      (flat_map backoff_step (range k)).
Proof.
  intros Hk Hp. unfold run, _make_request_with_retry.
  rewrite (range_split k (max_retries config)) by lia. unfold range.
  rewrite loop_rate_limited_prefix; [reflexivity | | lia].
  intros a Ha. apply Hp. lia.
Qed.

Lemma requests_rate_limit_trace k :
  0 <= k -> requests (rate_limit_trace k) = range (k + 1).
Proof.
  intros Hk. unfold rate_limit_trace. rewrite requests_app, requests_backoff.
  rewrite range_snoc by lia. reflexivity.
Qed.

(** X1.  When the provider is rate limited at attempts [0 .. k-1] and answers
    at attempt [k <= max_retries], [generate_response] returns that answer:
    its text and token count, the configured model, [attempt_count = k+1];
    it has made the requests [0 .. k] and slept [min(2^a, 60)] after each of
    the first [k]. *)
Theorem retry_then_success config (p : provider) k text n t0 t1 self :
  0 <= k <= max_retries config ->
  (forall a, 0 <= a < k -> p a = RateLimitError) ->
  p k = Completion text n ->
  outcome config p t0 t1 self
  = {| content := text; success := true; error_type := None;
       error_message := None; tokens_used := n; model_used := model config;
       response_time := (t1 - t0)%Q; attempt_count := k + 1 |}
  /\ effects config p t0 t1 self = rate_limit_trace k
  /\ requests (effects config p t0 t1 self) = range (k + 1)
  /\ sleeps (effects config p t0 t1 self)
     = map (fun a => Z.min (2 ^ a) 60) (range k).
Proof.
  intros Hk Hp Hs. unfold outcome, effects.
  rewrite generate_response_run, (retry_after_rate_limits config p k Hk Hp).
  cbn [attempt_loop]. unfold bind, ChatCompletion_create. rewrite Hs.
  unfold ret. cbn [fst snd with_response_time content success error_type
                   error_message tokens_used model_used attempt_count].
  fold (rate_limit_trace k).
  split; [reflexivity |]. split; [reflexivity |]. split.
  - apply requests_rate_limit_trace. lia.
  - unfold rate_limit_trace. rewrite sleeps_app, sleeps_backoff.
    cbn. apply app_nil_r.
Qed.

Lemma retry_then_success_witness :
  0 <= 1 <= max_retries default_config
  /\ (forall a, 0 <= a < 1 -> once_limited a = RateLimitError)
  /\ once_limited 1 = Completion "Success after retry" 25
  /\ attempt_count (outcome default_config once_limited 0 0 _reset_statistics) = 2
  /\ sleeps (effects default_config once_limited 0 0 _reset_statistics) = [1].
Proof.
  assert (Hk : 0 <= 1 <= max_retries default_config) by (cbn; lia).
  assert (Hp : forall a, 0 <= a < 1 -> once_limited a = RateLimitError).
  { intros a Ha. replace a with 0 by lia. reflexivity. }
  split; [exact Hk | split; [exact Hp | split; [reflexivity |]]].
  destruct (retry_then_success default_config once_limited 1
              "Success after retry" 25 0 0 _reset_statistics Hk Hp eq_refl)
    as (Hout & _ & _ & Hsl).
  split; [now rewrite Hout | exact Hsl].
Defined.

(** X2.  When the provider is rate limited at attempts [0 .. k-1] and raises
    a signal that is never retried at attempt [k <= max_retries], the call
    returns at once a failure of the matching kind with empty content, after
    the requests [0 .. k].  For an invalid request, an authentication
    failure and a permission failure the reported [attempt_count] is 1
    whatever [k] is; for any other exception it is [k + 1]. *)
Theorem immediate_failures_after_retries config (p : provider) k kind count
    t0 t1 self :
  0 <= k <= max_retries config ->
  (forall a, 0 <= a < k -> p a = RateLimitError) ->
  refusal (p k) k = Some (kind, count) ->
  let r := outcome config p t0 t1 self in
  success r = false
  /\ content r = ""
  /\ error_type r = Some kind
  /\ attempt_count r = count
  /\ effects config p t0 t1 self = rate_limit_trace k
  /\ requests (effects config p t0 t1 self) = range (k + 1).
Proof.
  intros Hk Hp Hs r. subst r. unfold outcome, effects.
  rewrite generate_response_run, (retry_after_rate_limits config p k Hk Hp).
  cbn [attempt_loop]. unfold bind, ChatCompletion_create.
  pose proof (requests_rate_limit_trace k ltac:(lia)) as Hreq.
  fold (rate_limit_trace k).
  destruct (p k); try discriminate Hs; injection Hs as <- <-;
    unfold ret; cbn [fst snd]; repeat split; exact Hreq.
Qed.

Lemma immediate_failures_after_retries_witness :
  0 <= 2 <= max_retries default_config
  /\ (forall a, 0 <= a < 2 -> limited_then_refused a = RateLimitError)
  /\ refusal (limited_then_refused 2) 2 = Some (AUTHENTICATION, 1)
  /\ attempt_count
       (outcome default_config limited_then_refused 0 0 _reset_statistics) = 1
  /\ requests (effects default_config limited_then_refused 0 0 _reset_statistics)
     = [0; 1; 2].
Proof.
  assert (Hk : 0 <= 2 <= max_retries default_config) by (cbn; lia).
  assert (Hp : forall a, 0 <= a < 2 -> limited_then_refused a = RateLimitError).
  { intros a Ha. unfold limited_then_refused.
    now replace (a <? 2) with true by (symmetry; apply Z.ltb_lt; lia). }
  split; [exact Hk | split; [exact Hp | split; [reflexivity |]]].
  destruct (immediate_failures_after_retries default_config limited_then_refused
              2 AUTHENTICATION 1 0 0 _reset_statistics Hk Hp eq_refl)
    as (_ & _ & _ & Hc & _ & Hr).
  split; [exact Hc | exact Hr].
Defined.

(** X3.  When the provider is rate limited at attempts [0 .. k-1] and raises
    [APIError] at attempt [k <= max_retries], no request follows.  At the
    last attempt ([k = max_retries]) the call returns a failure of kind
    [API_ERROR] with [attempt_count = max_retries + 1].  Before it
    ([k < max_retries]) the call sleeps [2^k] seconds and returns
    [success = True] with empty content, no error kind and
    [attempt_count = 1]. *)
Theorem api_error_after_rate_limits config (p : provider) k t0 t1 self :
  0 <= k <= max_retries config ->
  (forall a, 0 <= a < k -> p a = RateLimitError) ->
  p k = APIError ->
  let r := outcome config p t0 t1 self in
  let log := effects config p t0 t1 self in
  content r = ""
  /\ requests log = range (k + 1)
  /\ if k <? max_retries config
     then success r = true /\ error_type r = None /\ attempt_count r = 1
          /\ log = rate_limit_trace k ++ [EvSleep (2 ^ k)]
     else success r = false /\ error_type r = Some API_ERROR
          /\ attempt_count r = max_retries config + 1
          /\ log = rate_limit_trace k.
Proof.
  intros Hk Hp Hs r log. subst r log. unfold outcome, effects.
  rewrite generate_response_run, (retry_after_rate_limits config p k Hk Hp).
  cbn [attempt_loop]. unfold bind at 1, ChatCompletion_create. rewrite Hs.
  unfold _handle_api_error.
  pose proof (requests_rate_limit_trace k ltac:(lia)) as Hreq.
  destruct (k <? max_retries config) eqn:Hlt.
  - unfold bind, time_sleep, ret. cbn [fst snd].
    fold (rate_limit_trace k).
    split; [reflexivity |]. split; [| repeat split].
    rewrite requests_app, Hreq. cbn. apply app_nil_r.
  - apply Z.ltb_ge in Hlt. unfold ret. cbn [fst snd].
    fold (rate_limit_trace k).
    split; [reflexivity |]. split; [exact Hreq |].
    cbn. repeat split. f_equal. lia.
Qed.

Lemma api_error_after_rate_limits_witness :
  0 <= 3 <= max_retries default_config
  /\ (forall a, 0 <= a < 3 -> limited_then_unavailable a = RateLimitError)
  /\ limited_then_unavailable 3 = APIError
  /\ error_type
       (outcome default_config limited_then_unavailable 0 0 _reset_statistics)
     = Some API_ERROR.
Proof.
  assert (Hk : 0 <= 3 <= max_retries default_config) by (cbn; lia).
  assert (Hp : forall a, 0 <= a < 3 ->
                 limited_then_unavailable a = RateLimitError).
  { intros a Ha. unfold limited_then_unavailable.
    now replace (a <? 3) with true by (symmetry; apply Z.ltb_lt; lia). }
  split; [exact Hk | split; [exact Hp | split; [reflexivity |]]].
  destruct (api_error_after_rate_limits default_config limited_then_unavailable
              3 0 0 _reset_statistics Hk Hp eq_refl) as (_ & _ & Hcase).
  exact (proj1 (proj2 Hcase)).
Defined.

(** *** Any provider *)

Lemma total_sleep_cons w ev :
  total_sleep (EvSleep w :: ev) = w + total_sleep ev.
Proof. reflexivity. Qed.

Lemma pow2_step a m : 0 <= a < m -> 2 ^ a + 2 ^ a <= 2 ^ m.
Proof.
  intros Ha. replace (2 ^ a + 2 ^ a) with (2 ^ (a + 1))
    by (rewrite Z.pow_add_r by lia; lia).
  apply Z.pow_le_mono_r; lia.
Qed.

Lemma pow2_pos a : 0 <= a -> 1 <= 2 ^ a.
Proof. intros Ha. pose proof (Z.pow_pos_nonneg 2 a). lia. Qed.

(** Every response the attempt loop produces is either a success without
    error fields or a failure with empty content and both error fields. *)
Lemma loop_response_shape config (p : provider) attempts :
  forall log r log',
    attempt_loop config p attempts log = (r, log') ->
    if success r
    then error_type r = None /\ error_message r = None
    else content r = "" /\ tokens_used r = 0
         /\ error_type r <> None /\ error_message r <> None.
Proof.
  induction attempts as [|a rest IH]; intros log r log' Hrun.
  - cbn in Hrun. unfold ret in Hrun. inversion Hrun; subst. cbn.
    repeat split; discriminate.
  - cbn [attempt_loop] in Hrun. unfold bind, ChatCompletion_create in Hrun.
    destruct (p a) as [text n| | | | | |].
    + unfold ret in Hrun. inversion Hrun; subst. cbn. split; reflexivity.
    + unfold _handle_rate_limit_error in Hrun.
      destruct (a <? max_retries config).
      * unfold bind, time_sleep, ret in Hrun. cbn in Hrun. eapply IH; eauto.
      * unfold ret in Hrun. cbn in Hrun. inversion Hrun; subst. cbn.
        repeat split; discriminate.
    + unfold _handle_api_error in Hrun.
      destruct (a <? max_retries config).
      * unfold bind, time_sleep, ret in Hrun. inversion Hrun; subst. cbn.
        split; reflexivity.
      * unfold ret in Hrun. inversion Hrun; subst. cbn.
        repeat split; discriminate.
    + unfold ret in Hrun. inversion Hrun; subst. cbn. repeat split; discriminate.
    + unfold ret in Hrun. inversion Hrun; subst. cbn. repeat split; discriminate.
    + unfold ret in Hrun. inversion Hrun; subst. cbn. repeat split; discriminate.
    + unfold ret in Hrun. inversion Hrun; subst. cbn. repeat split; discriminate.
Qed.

(** A failed call always has a message to show. *)
Lemma failure_has_message config (p : provider) t0 t1 self :
  success (outcome config p t0 t1 self) = false ->
  exists m, error_message (outcome config p t0 t1 self) = Some m.
Proof.
  unfold outcome. rewrite generate_response_run. cbn [fst].
  unfold run, _make_request_with_retry.
  destruct (attempt_loop config p (range (max_retries config + 1)) [])
    as [r log'] eqn:Hrun.
  pose proof (loop_response_shape config p _ _ _ _ Hrun) as Hshape.
  cbn [fst with_response_time success error_message]. intros Hfail.
  rewrite Hfail in Hshape. destruct Hshape as (_ & _ & _ & Hmsg).
  destruct (error_message r) as [m|]; [eauto | now destruct Hmsg].
Qed.

(** A step of the loop that issues its request, perhaps sleeps once, and
    returns. *)
Lemma loop_bounds_one config a0 n r (slept : list Z) :
  (1 <= n)%nat ->
  1 <= attempt_count r <= Z.of_nat a0 + 1 ->
  error_message r <> Some "Maximum retry attempts exceeded" ->
  slept = [] \/ (Z.of_nat a0 < max_retries config
                 /\ exists w, slept = [w] /\ 1 <= w <= 2 ^ Z.of_nat a0) ->
  loop_bounds config a0 n r
    (EvRequest (Z.of_nat a0) :: map EvSleep slept).
Proof.
  intros Hn Hcount Hmsg Hslept. unfold loop_bounds.
  assert (Hreq : requests (EvRequest (Z.of_nat a0) :: map EvSleep slept)
                 = [Z.of_nat a0]).
  { destruct Hslept as [-> | (_ & w & -> & _)]; reflexivity. }
  assert (Hsl : sleeps (EvRequest (Z.of_nat a0) :: map EvSleep slept) = slept).
  { destruct Hslept as [-> | (_ & w & -> & _)]; reflexivity. }
  unfold total_sleep. rewrite Hsl, Hreq.
  destruct Hslept as [-> | (Hlt & w & -> & Hw)]; cbn [length fold_right].
  - split; [lia |]. split; [constructor |]. split; [lia |].
    right. exists 1%nat. repeat split; try lia; assumption.
  - pose proof (pow2_step (Z.of_nat a0) (max_retries config)) as Hpow.
    split; [lia |]. split; [repeat constructor; lia |]. split; [lia |].
    right. exists 1%nat. repeat split; try lia; assumption.
Qed.

(** The bounds hold for every provider, by induction on the attempts left. *)
Lemma loop_invariant config (p : provider) :
  forall n a0 log r log',
    attempt_loop config p (map Z.of_nat (seq a0 n)) log = (r, log') ->
    exists ev, log' = log ++ ev /\ loop_bounds config a0 n r ev.
Proof.
  induction n as [|n IH]; intros a0 log r log' Hrun.
  - cbn in Hrun. unfold ret in Hrun. inversion Hrun; subst.
    exists []. split; [now rewrite app_nil_r |]. unfold loop_bounds.
    cbn. split; [lia |]. split; [constructor |]. split; [lia |].
    left. auto.
  - cbn [seq map attempt_loop] in Hrun.
    unfold bind, ChatCompletion_create in Hrun.
    destruct (p (Z.of_nat a0)) as [text k| | | | | |].
    + unfold ret in Hrun. inversion Hrun; subst.
      exists (EvRequest (Z.of_nat a0) :: map EvSleep []).
      split; [reflexivity |].
      apply loop_bounds_one; cbn; try lia; [discriminate | now left].
    + unfold _handle_rate_limit_error in Hrun.
      destruct (Z.of_nat a0 <? max_retries config) eqn:Hlt.
      * apply Z.ltb_lt in Hlt.
        unfold bind, time_sleep, ret in Hrun. cbn in Hrun.
        destruct (IH _ _ _ _ Hrun) as (ev' & -> & Hs & Hpos & Htot & Hcase).
        set (w := Z.min (2 ^ Z.of_nat a0) 60) in *.
        pose proof (pow2_pos (Z.of_nat a0) ltac:(lia)) as Hp1.
        pose proof (pow2_step (Z.of_nat a0) (max_retries config)
                      ltac:(lia)) as Hp2.
        assert (Hw : 1 <= w <= 2 ^ Z.of_nat a0) by (subst w; lia).
        assert (Hpow : 2 ^ Z.of_nat (S a0) = 2 ^ Z.of_nat a0 + 2 ^ Z.of_nat a0).
        { replace (Z.of_nat (S a0)) with (Z.of_nat a0 + 1) by lia.
          rewrite Z.pow_add_r by lia. lia. }
        exists (EvRequest (Z.of_nat a0) :: EvSleep w :: ev').
        split; [now rewrite <- !app_assoc |].
        unfold loop_bounds.
        change (sleeps (EvRequest (Z.of_nat a0) :: EvSleep w :: ev'))
          with (w :: sleeps ev').
        change (requests (EvRequest (Z.of_nat a0) :: EvSleep w :: ev'))
          with (Z.of_nat a0 :: requests ev').
        change (total_sleep (EvRequest (Z.of_nat a0) :: EvSleep w :: ev'))
          with (w + total_sleep ev').
        cbn [length]. split; [lia |]. split; [constructor; [lia | exact Hpos] |].
        split; [lia |].
        destruct Hcase as [(-> & Hreq & Hn) | (j & Hj & Hreq & Hcount & Hmsg)].
        -- left. split; [reflexivity |]. split; [now rewrite Hreq |].
           right. lia.
        -- right. exists (S j). split; [lia |]. split; [now rewrite Hreq |].
           split; [lia | exact Hmsg].
      * unfold ret in Hrun. inversion Hrun; subst.
        exists (EvRequest (Z.of_nat a0) :: map EvSleep []).
        split; [reflexivity |].
        apply loop_bounds_one; cbn; try lia; [discriminate | now left].
    + unfold _handle_api_error in Hrun.
      destruct (Z.of_nat a0 <? max_retries config) eqn:Hlt.
      * apply Z.ltb_lt in Hlt.
        unfold bind, time_sleep, ret in Hrun. inversion Hrun; subst.
        exists (EvRequest (Z.of_nat a0) :: map EvSleep [2 ^ Z.of_nat a0]).
        split; [now rewrite <- app_assoc |].
        pose proof (pow2_pos (Z.of_nat a0) ltac:(lia)) as Hp1.
        apply loop_bounds_one; cbn; try lia; [discriminate |].
        right. split; [exact Hlt |]. eexists. split; [reflexivity | lia].
      * unfold ret in Hrun. inversion Hrun; subst.
        exists (EvRequest (Z.of_nat a0) :: map EvSleep []).
        split; [reflexivity |].
        apply loop_bounds_one; cbn; try lia; [discriminate | now left].
    + unfold ret in Hrun. inversion Hrun; subst.
      exists (EvRequest (Z.of_nat a0) :: map EvSleep []).
      split; [reflexivity |].
      apply loop_bounds_one; cbn; try lia; [discriminate | now left].
    + unfold ret in Hrun. inversion Hrun; subst.
      exists (EvRequest (Z.of_nat a0) :: map EvSleep []).
      split; [reflexivity |].
      apply loop_bounds_one; cbn; try lia; [discriminate | now left].
    + unfold ret in Hrun. inversion Hrun; subst.
      exists (EvRequest (Z.of_nat a0) :: map EvSleep []).
      split; [reflexivity |].
      apply loop_bounds_one; cbn; try lia; [discriminate | now left].
    + unfold ret in Hrun. inversion Hrun; subst.
      exists (EvRequest (Z.of_nat a0) :: map EvSleep []).
      split; [reflexivity |].
      apply loop_bounds_one; cbn; try lia; [discriminate | now left].
Qed.

Lemma retry_run_split config (p : provider) :
  exists r ev,
    run (_make_request_with_retry config p) = (r, ev)
    /\ loop_bounds config 0 (Z.to_nat (max_retries config + 1)) r ev.
Proof.
  unfold run, _make_request_with_retry, range.
  destruct (attempt_loop config p
              (map Z.of_nat (seq 0 (Z.to_nat (max_retries config + 1)))) [])
    as [r log'] eqn:Hrun.
  destruct (loop_invariant config p _ _ _ _ _ Hrun) as (ev & -> & Hb).
  exists r, ev. split; [reflexivity | exact Hb].
Qed.

Lemma negative_retries_run config (p : provider) :
  max_retries config < 0 ->
  run (_make_request_with_retry config p) = (retries_exceeded config, []).
Proof.
  intros Hm. unfold run, _make_request_with_retry, range.
  now replace (Z.to_nat (max_retries config + 1)) with 0%nat by lia.
Qed.

(** X4.  For a configured [max_retries >= 0] and any provider, the requests
    of one [generate_response] call are exactly the attempts [0 .. j-1] for
    some [1 <= j <= max_retries + 1], in order, and the reported
    [attempt_count] lies between 1 and the number of requests made. *)
Theorem requests_are_bounded config (p : provider) t0 t1 self :
  0 <= max_retries config ->
  let r := outcome config p t0 t1 self in
  let log := effects config p t0 t1 self in
  exists j,
    1 <= j <= max_retries config + 1
    /\ requests log = range j
    /\ Z.of_nat (length (requests log)) = j
    /\ 1 <= attempt_count r <= j.
Proof.
  intros Hm r log. subst r log. unfold outcome, effects.
  rewrite generate_response_run.
  destruct (retry_run_split config p) as (r & ev & -> & _ & _ & _ & Hcase).
  cbn [fst snd with_response_time attempt_count error_message].
  destruct Hcase as [(_ & _ & [Hn | Hn]) | (j & Hj & Hreq & Hcount & Hmsg)];
    [lia | lia |].
  exists (Z.of_nat j). split; [lia |].
  assert (Hr : requests ev = range (Z.of_nat j))
    by (unfold range; now rewrite Nat2Z.id).
  split; [exact Hr |]. split; [| lia].
  rewrite Hr, length_range. lia.
Qed.

Lemma requests_are_bounded_witness :
  0 <= max_retries default_config
  /\ exists j, 1 <= j <= 4
       /\ requests (effects default_config always_rate_limited 0 0
                      _reset_statistics) = range j.
Proof.
  assert (H0 : 0 <= max_retries default_config) by (cbn; lia).
  split; [exact H0 |].
  destruct (requests_are_bounded default_config always_rate_limited 0 0
              _reset_statistics H0) as (j & Hj & Hreq & _).
  exists j. split; [exact Hj | exact Hreq].
Defined.

(** X5.  For a configured [max_retries >= 0] and any provider, one
    [generate_response] call sleeps at most [max_retries] times, each time
    for at least one second, and for at most [2^max_retries - 1] seconds in
    total. *)
Theorem backoff_is_bounded config (p : provider) t0 t1 self :
  0 <= max_retries config ->
  let log := effects config p t0 t1 self in
  Z.of_nat (length (sleeps log)) <= max_retries config
  /\ Forall (fun w => 1 <= w) (sleeps log)
  /\ total_sleep log <= 2 ^ max_retries config - 1.
Proof.
  intros Hm log. subst log. unfold effects. rewrite generate_response_run.
  destruct (retry_run_split config p) as (r & ev & -> & Hlen & Hpos & Htot & _).
  cbn [snd]. change (2 ^ Z.of_nat 0) with 1 in Htot.
  pose proof (pow2_pos (max_retries config) Hm).
  split; [lia |]. split; [exact Hpos | lia].
Qed.

Lemma backoff_is_bounded_witness :
  0 <= max_retries default_config
  /\ total_sleep (effects default_config always_rate_limited 0 0
                    _reset_statistics) <= 7.
Proof.
  assert (H0 : 0 <= max_retries default_config) by (cbn; lia).
  split; [exact H0 |].
  exact (proj2 (proj2 (backoff_is_bounded default_config always_rate_limited
                         0 0 _reset_statistics H0))).
Defined.

(** X6.  The closing "Maximum retry attempts exceeded" failure of
    [_make_request_with_retry] is returned exactly when [max_retries] is
    negative; the call then makes no request and no sleep and reports
    [attempt_count = max_retries + 1].  With [max_retries >= 0] the loop
    always returns from inside. *)
Theorem retry_fallback_iff_negative config (p : provider) t0 t1 self :
  let r := outcome config p t0 t1 self in
  (error_message r = Some "Maximum retry attempts exceeded"
   <-> max_retries config < 0)
  /\ (max_retries config < 0 ->
      effects config p t0 t1 self = []
      /\ success r = false /\ error_type r = Some UNKNOWN
      /\ attempt_count r = max_retries config + 1).
Proof.
  intros r. subst r. unfold outcome, effects. rewrite generate_response_run.
  cbn [fst snd]. split; [split |].
  - intros Hmsg.
    destruct (Z.lt_ge_cases (max_retries config) 0) as [|Hge]; [assumption |].
    destruct (retry_run_split config p) as (r & ev & Hrun & _ & _ & _ & Hcase).
    rewrite Hrun in Hmsg. cbn [fst with_response_time error_message] in Hmsg.
    destruct Hcase as [(_ & _ & [Hn | Hn]) | (j & _ & _ & _ & Hne)];
      [lia | lia | now destruct Hne].
  - intros Hm. now rewrite negative_retries_run.
  - intros Hm. rewrite negative_retries_run by exact Hm. cbn. repeat split.
Qed.

(** X7.  Whatever the provider does, the outcome of [generate_response]
    carries the elapsed time, and is either a success with neither error
    kind nor error message, or a failure with empty content, zero tokens, an
    error kind and an error message. *)
Theorem outcome_is_well_formed config (p : provider) t0 t1 self :
  let r := outcome config p t0 t1 self in
  response_time r = (t1 - t0)%Q
  /\ if success r
     then error_type r = None /\ error_message r = None
     else content r = "" /\ tokens_used r = 0
          /\ error_type r <> None /\ error_message r <> None.
Proof.
  intros r. subst r. unfold outcome. rewrite generate_response_run.
  cbn [fst]. split; [reflexivity |].
  unfold run, _make_request_with_retry.
  destruct (attempt_loop config p (range (max_retries config + 1)) [])
    as [r log'] eqn:Hrun.
  pose proof (loop_response_shape config p _ _ _ _ Hrun) as Hshape.
  cbn [fst with_response_time success error_type error_message content
       tokens_used]. exact Hshape.
Qed.

(** *** Statistics over a sequence of calls *)

Lemma client_after_step config (p : provider) t0 t1 self :
  let r := outcome config p t0 t1 self in
  let self' := client_after config p t0 t1 self in
  total_requests self' = total_requests self + 1
  /\ successful_requests self'
     = successful_requests self + (if success r then 1 else 0)
  /\ failed_requests self'
     = failed_requests self + (if success r then 0 else 1)
  /\ total_tokens_used self'
     = total_tokens_used self + (if success r then tokens_used r else 0).
Proof.
  intros r self'. subst r self'. unfold outcome, client_after.
  rewrite generate_response_run. cbn [fst snd].
  cbn [success tokens_used with_response_time total_requests
       successful_requests failed_requests total_tokens_used].
  destruct (success (fst (run (_make_request_with_retry config p))));
    repeat split; lia.
Qed.

Lemma successes_failures rs :
  successes rs + failures rs = Z.of_nat (length rs)
  /\ 0 <= successes rs /\ 0 <= failures rs.
Proof.
  unfold successes, failures.
  induction rs as [|r rs IH]; [cbn; lia |].
  cbn [List.filter]. destruct (success r); cbn [negb length]; lia.
Qed.

Lemma round_half_even_range (q : Q) (n : Z) :
  (0 <= q)%Q -> (q <= inject_Z n)%Q -> 0 <= round_half_even q <= n.
Proof.
  intros H0 Hn. unfold round_half_even.
  assert (Hf0 : 0 <= Qfloor q).
  { change 0 with (Qfloor 0). now apply Qfloor_resp_le. }
  assert (Hfn : Qfloor q <= n).
  { rewrite <- (Qfloor_Z n). now apply Qfloor_resp_le. }
  destruct (Z.eq_dec (Qfloor q) n) as [Heq | Hne].
  - assert (Hlt : (q - inject_Z (Qfloor q) < 1 # 2)%Q).
    { rewrite Heq. apply Qle_lt_trans with (y := 0%Q); [| reflexivity].
      apply (Qplus_le_l _ _ (inject_Z n)). ring_simplify. exact Hn. }
    assert (Hc : (q - inject_Z (Qfloor q) ?= 1 # 2)%Q = Lt)
      by (apply Qlt_alt; exact Hlt).
    rewrite Hc. lia.
  - destruct (q - inject_Z (Qfloor q) ?= 1 # 2)%Q;
      try destruct (Z.even (Qfloor q)); lia.
Qed.

Lemma round2_range (q : Q) :
  (0 <= q)%Q -> (q <= 100)%Q -> (0 <= round2 q)%Q /\ (round2 q <= 100)%Q.
Proof.
  intros H0 H100. unfold round2.
  assert (Hr : 0 <= round_half_even (q * 100) <= 10000).
  { apply round_half_even_range.
    - apply Qmult_le_0_compat; [exact H0 | discriminate].
    - change (inject_Z 10000) with (100 * 100)%Q.
      apply Qmult_le_compat_r; [exact H100 | discriminate]. }
  set (z := round_half_even (q * 100)) in *. clearbody z.
  unfold Qdiv, Qle, Qmult, Qinv, inject_Z. cbn.
  rewrite ?Pos.mul_1_l. lia.
Qed.

Lemma success_rate_range config self :
  0 <= successful_requests self <= total_requests self ->
  let st := get_statistics config self in
  (0 <= Stats.success_rate_percent st)%Q
  /\ (Stats.success_rate_percent st <= 100)%Q.
Proof.
  intros Hs st. subst st. cbn [get_statistics Stats.success_rate_percent].
  apply round2_range.
  - destruct (0 <? total_requests self) eqn:Ht; [| discriminate].
    apply Z.ltb_lt in Ht.
    unfold Qdiv, Qle, Qmult, Qinv, inject_Z. cbn.
    destruct (total_requests self) as [|t|t]; try lia. cbn. lia.
  - destruct (0 <? total_requests self) eqn:Ht; [| discriminate].
    apply Z.ltb_lt in Ht.
    unfold Qdiv, Qle, Qmult, Qinv, inject_Z. cbn.
    destruct (total_requests self) as [|t|t]; try lia. cbn. nia.
Qed.

Lemma generate_all_counts config :
  forall calls self,
    let rs := fst (generate_all config calls self) in
    let self' := snd (generate_all config calls self) in
    length rs = length calls
    /\ total_requests self' = total_requests self + Z.of_nat (length calls)
    /\ successful_requests self' = successful_requests self + successes rs
    /\ failed_requests self' = failed_requests self + failures rs
    /\ total_tokens_used self' = total_tokens_used self + tokens_of rs.
Proof.
  induction calls as [|c calls IH]; intros self.
  - cbn. unfold successes, failures, tokens_of. cbn. repeat split; lia.
  - cbn [generate_all].
    destruct (generate_all config calls
                (client_after config (call_provider c) (call_start c)
                   (call_end c) self)) as [rs self''] eqn:Hrest.
    specialize (IH (client_after config (call_provider c) (call_start c)
                      (call_end c) self)).
    rewrite Hrest in IH. cbn [fst snd] in IH |- *.
    destruct IH as (Hlen & Htot & Hs & Hf & Ht).
    pose proof (client_after_step config (call_provider c)
                  (call_start c) (call_end c) self) as Hstep.
    cbv zeta in Hstep. destruct Hstep as (H1 & H2 & H3 & H4).
    unfold successes, failures, tokens_of in *. cbn [List.filter].
    destruct (success (outcome config (call_provider c) (call_start c)
                         (call_end c) self)) eqn:Hok;
      cbn [negb length map fold_right]; repeat split; lia.
Qed.

(** X8.  After any sequence of [generate_response] calls on a client whose
    statistics were reset, [total_requests] is the number of calls,
    [successful_requests] and [failed_requests] count the successful and the
    failed outcomes and add up to [total_requests], [total_tokens_used] is
    the sum of [tokens_used] over the successful outcomes, and the
    [success_rate_percent] of the snapshot lies between 0 and 100. *)
Theorem statistics_over_calls config calls :
  let rs := fst (generate_all config calls _reset_statistics) in
  let self := snd (generate_all config calls _reset_statistics) in
  let st := get_statistics config self in
  length rs = length calls
  /\ total_requests self = Z.of_nat (length calls)
  /\ successful_requests self = successes rs
  /\ failed_requests self = failures rs
  /\ total_requests self = successful_requests self + failed_requests self
  /\ total_tokens_used self = tokens_of rs
  /\ (0 <= Stats.success_rate_percent st)%Q
  /\ (Stats.success_rate_percent st <= 100)%Q.
Proof.
  intros rs self st. subst st.
  destruct (generate_all_counts config calls _reset_statistics)
    as (Hlen & Htot & Hs & Hf & Ht).
  fold rs self in Hlen, Htot, Hs, Hf, Ht.
  cbn [_reset_statistics total_requests successful_requests failed_requests
       total_tokens_used] in Htot, Hs, Hf, Ht.
  destruct (successes_failures rs) as (Hsum & Hs0 & Hf0).
  assert (Hrange : 0 <= successful_requests self <= total_requests self) by lia.
  destruct (success_rate_range config self Hrange) as [Hlo Hhi].
  repeat split; try assumption; lia.
Qed.

End ClientExtras.

(* ===================================================================== *)
(** ** Further properties of the conversation store *)
(* ===================================================================== *)
Module StoreExtras.
Import Conversation ConversationOps ConversationProps.

(** *** Saving and loading *)

Lemma from_dicts_to_dict now convs :
  forall i, from_dicts now i (map to_dict convs) = Ok convs.
Proof.
  induction convs as [|c convs IH]; intros i; [reflexivity |].
  cbn [map from_dicts]. now rewrite from_dict_to_dict, IH.
Qed.

Lemma init_on_dump cfg path now stamp (fs : disk) convs :
  fs !! path = Some (JsonText (JArr (map to_dict convs))) ->
  init cfg path now stamp fs
  = ({| config := cfg; file_path := path; _conversations := convs |}, fs).
Proof.
  intros Hfile. unfold init, _load_conversations. cbn [file_path].
  rewrite Hfile. cbn [json_load]. now rewrite from_dicts_to_dict.
Qed.

Lemma save_lookup_file self (fs : disk) :
  _save_conversations self fs !! file_path self
  = Some (JsonText (JArr (map to_dict (_conversations self)))).
Proof. unfold _save_conversations. apply lookup_insert_eq. Qed.

(** X9.  A manager constructed on the disk that [_save_conversations] leaves
    holds the same exchanges in the same order, whatever their field values
    are, and the construction changes nothing on that disk (no backup is
    made). *)
Theorem save_then_load self now stamp (fs : disk) :
  init (config self) (file_path self) now stamp (_save_conversations self fs)
  = (self, _save_conversations self fs).
Proof.
  rewrite (init_on_dump _ _ _ _ _ (_conversations self))
    by apply save_lookup_file.
  now destruct self.
Qed.

(** X10.  After [_save_conversations] the conversation file holds the dump
    of the history; the [.tmp] sibling used for the write does not exist,
    even if a file of that name existed before; every other file is as it
    was. *)
Theorem save_disk_effect self (fs : disk) :
  let temp_path := with_suffix (file_path self) ".tmp" in
  let fs' := _save_conversations self fs in
  fs' !! file_path self
  = Some (JsonText (JArr (map to_dict (_conversations self))))
  /\ (temp_path <> file_path self -> fs' !! temp_path = None)
  /\ (forall q, q <> file_path self -> q <> temp_path -> fs' !! q = fs !! q).
Proof.
  intros temp_path fs'. subst fs'. split; [apply save_lookup_file |].
  unfold _save_conversations. fold temp_path. split.
  - intros Hne. rewrite lookup_insert_ne by congruence.
    apply lookup_delete_eq.
  - intros q Hq Ht. rewrite lookup_insert_ne by congruence.
    rewrite lookup_delete_ne by congruence.
    now rewrite lookup_insert_ne by congruence.
Qed.

(** *** Backups *)

Lemma lookup_insert_copy (fs : disk) k path c :
  fs !! path = Some c -> <[k := c]> fs !! path = fs !! path.
Proof.
  intros Hc. destruct (decide (k = path)) as [-> | Hne].
  - now rewrite lookup_insert_eq.
  - now rewrite lookup_insert_ne.
Qed.

Lemma create_backup_keeps_file suffix stamp self (fs : disk) :
  snd (_create_backup suffix stamp self fs) !! file_path self
  = fs !! file_path self.
Proof.
  unfold _create_backup.
  destruct (fs !! file_path self) as [c|] eqn:Hfile; cbn [snd];
    [| exact Hfile].
  rewrite (lookup_insert_copy fs _ _ c Hfile). exact Hfile.
Qed.

(** X11.  [_create_backup] returns [True] exactly when the conversation file
    exists.  It then puts a copy of the file at the backup path; the
    conversation file keeps its content and no other path changes.  When
    the file is missing the disk is left as it was. *)
Theorem create_backup_copies suffix stamp self (fs : disk) :
  let res := _create_backup suffix stamp self fs in
  let target := backup_path self suffix stamp in
  (fst res = true <-> is_Some (fs !! file_path self))
  /\ snd res !! file_path self = fs !! file_path self
  /\ (fst res = true -> snd res !! target = fs !! file_path self)
  /\ (fst res = false -> snd res = fs)
  /\ (forall q, q <> target -> snd res !! q = fs !! q).
Proof.
  intros res target. subst res target.
  split; [| split; [apply create_backup_keeps_file |]].
  - unfold _create_backup. destruct (fs !! file_path self) as [c|]; cbn [fst].
    + split; [eauto | reflexivity].
    + split; [discriminate | intros [x Hx]; discriminate].
  - unfold _create_backup.
    destruct (fs !! file_path self) as [c|] eqn:Hfile; cbn [fst snd].
    + split; [intros _; apply lookup_insert_eq |]. split; [discriminate |].
      intros q Hq. now rewrite lookup_insert_ne by congruence.
    + split; [discriminate |]. split; reflexivity.
Qed.

Lemma handle_corrupted_keeps_file error_type stamp self (fs : disk) :
  snd (_handle_corrupted_file error_type stamp self fs) !! file_path self
  = fs !! file_path self.
Proof.
  unfold _handle_corrupted_file. cbn [snd].
  destruct (backup_on_corruption (config self)); [| reflexivity].
  apply create_backup_keeps_file.
Qed.

(** *** Loading *)

Lemma from_dicts_length now data :
  forall i convs,
    from_dicts now i data = Ok convs -> length convs = length data.
Proof.
  induction data as [|item data IH]; intros i convs H.
  - cbn in H. now injection H as <-.
  - cbn [from_dicts] in H. destruct (from_dict (now i) item); [| discriminate].
    destruct (from_dicts now (S i) data) as [cs|] eqn:Hcs; [| discriminate].
    injection H as <-. cbn. f_equal. eauto.
Qed.

(** X12.  Constructing a manager never changes or removes the conversation
    file, readable or not.  When the file is absent the store starts empty
    and the disk is untouched.  The store comes out non-empty only when the
    file holds a JSON list, with one exchange per item, and then the disk
    is untouched too. *)
Theorem load_keeps_backing_file cfg path now stamp (fs : disk) :
  let res := init cfg path now stamp fs in
  snd res !! path = fs !! path
  /\ config (fst res) = cfg /\ file_path (fst res) = path
  /\ (fs !! path = None -> res = ({| config := cfg; file_path := path;
                                     _conversations := [] |}, fs))
  /\ (_conversations (fst res) <> [] ->
      exists data, fs !! path = Some (JsonText (JArr data))
                   /\ length (_conversations (fst res)) = length data
                   /\ snd res = fs).
Proof.
  intros res. subst res. unfold init, _load_conversations. cbn [file_path].
  set (self := {| config := cfg; file_path := path; _conversations := [] |}).
  assert (Hcorrupt : forall e,
    let res := _handle_corrupted_file e stamp self fs in
    snd res !! path = fs !! path
    /\ config (fst res) = cfg /\ file_path (fst res) = path
    /\ _conversations (fst res) = []).
  { intros e. cbv zeta.
    split; [apply (handle_corrupted_keeps_file e stamp self) |].
    repeat split. }
  assert (Hshape :
    snd (_create_backup "invalid_format" stamp self fs) !! path = fs !! path).
  { apply (create_backup_keeps_file _ stamp self). }
  destruct (fs !! path) as [c|] eqn:Hfile.
  2:{ cbn. repeat split; try reflexivity; try assumption. now intros []. }
  destruct c as [| |v]; cbn [json_load].
  - destruct (Hcorrupt "unexpected_error") as (H1 & H2 & H3 & H4).
    split; [exact H1 |]. split; [exact H2 |]. split; [exact H3 |].
    split; [discriminate |]. rewrite H4. now intros [].
  - destruct (Hcorrupt "json_decode_error") as (H1 & H2 & H3 & H4).
    split; [exact H1 |]. split; [exact H2 |]. split; [exact H3 |].
    split; [discriminate |]. rewrite H4. now intros [].
  - destruct v as [| | | | |data|fields]; cbn [fst snd];
      try (split; [exact Hshape |]; split; [reflexivity |];
           split; [reflexivity |]; split; [discriminate |]; now intros []).
    destruct (from_dicts now 0 data) as [convs|e] eqn:Hload.
    + cbn [fst snd _conversations config file_path set_conversations].
      split; [exact Hfile |]. split; [reflexivity |]. split; [reflexivity |].
      split; [discriminate |]. intros _. exists data.
      split; [reflexivity |]. split; [| reflexivity].
      eapply from_dicts_length; eauto.
    + destruct (Hcorrupt "unexpected_error") as (H1 & H2 & H3 & H4).
      split; [exact H1 |]. split; [exact H2 |]. split; [exact H3 |].
      split; [discriminate |]. rewrite H4. now intros [].
Qed.

Lemma from_dicts_non_dict now data :
  (exists item, In item data /\ forall d, item <> JObj d) ->
  forall i, from_dicts now i data = Raise AttributeError.
Proof.
  induction data as [|x data IH]; intros (item & Hin & Hnd) i.
  - destruct Hin.
  - cbn [from_dicts]. destruct Hin as [-> | Hin].
    + destruct item; try reflexivity. now destruct (Hnd fields).
    + destruct (from_dict (now i) x) as [c|e] eqn:Hx.
      * rewrite IH; [reflexivity | eauto].
      * destruct x; try discriminate; cbn in Hx; now injection Hx as <-.
Qed.

(** X13.  When the conversation file holds a JSON list with at least one
    item that is not a dict, the whole file counts as corrupt: the store
    starts empty, whatever the other items are, and the file is backed up
    (under the [corrupted_unexpected_error] name) exactly when
    [backup_on_corruption] is set. *)
Theorem load_rejects_non_dict_item cfg path now stamp (fs : disk) data :
  fs !! path = Some (JsonText (JArr data)) ->
  (exists item, In item data /\ forall d, item <> JObj d) ->
  let self := {| config := cfg; file_path := path; _conversations := [] |} in
  init cfg path now stamp fs
  = (self,
     if backup_on_corruption cfg
     then <[backup_path self "corrupted_unexpected_error" stamp
            := JsonText (JArr data)]> fs
     else fs).
Proof.
  intros Hfile Hitem self. unfold init, _load_conversations. cbn [file_path].
  rewrite Hfile. cbn [json_load]. rewrite from_dicts_non_dict by exact Hitem.
  unfold _handle_corrupted_file, _create_backup. cbn [config file_path].
  rewrite Hfile. now destruct (backup_on_corruption cfg).
Qed.

Lemma load_rejects_non_dict_item_witness :
  let data := [to_dict (demo_exchange 1); JInt 7] in
  let fs : disk := {[ "conversations.json" := JsonText (JArr data) ]} in
  fs !! "conversations.json" = Some (JsonText (JArr data))
  /\ (exists item, In item data /\ forall d, item <> JObj d)
  /\ _conversations
       (fst (init (demo_config false) "conversations.json" demo_now
               demo_stamp fs)) = []
  /\ snd (init (demo_config false) "conversations.json" demo_now demo_stamp fs)
     = fs.
Proof.
  intros data fs.
  assert (Hfile : fs !! "conversations.json" = Some (JsonText (JArr data)))
    by apply lookup_singleton_eq.
  assert (Hitem : exists item, In item data /\ forall d, item <> JObj d).
  { exists (JInt 7). split; [right; now left | discriminate]. }
  split; [exact Hfile | split; [exact Hitem |]].
  rewrite (load_rejects_non_dict_item (demo_config false) "conversations.json"
             demo_now demo_stamp fs data Hfile Hitem).
  split; reflexivity.
Defined.

Lemma from_dicts_dicts now (ds : list (list (string * json))) :
  forall i,
    from_dicts now i (map JObj ds)
    = Ok (imap (fun k d => filled (now (i + k)%nat) d) ds).
Proof.
  induction ds as [|d ds IH]; intros i; [reflexivity |].
  cbn [map from_dicts from_dict imap]. rewrite IH.
  rewrite Nat.add_0_r. unfold filled at 2. do 2 f_equal.
  apply imap_ext. intros k x _. cbn. do 2 f_equal. lia.
Qed.

(** X14.  When the conversation file holds a JSON list of dicts, whatever
    their keys and values, the store loads one exchange per dict, in order,
    without checking anything: a field is the value under its key, or its
    default when the key is missing (the current time for [timestamp], empty
    texts for [user] and [assistant]); the disk is untouched. *)
Theorem load_list_of_dicts cfg path now stamp (fs : disk)
    (ds : list (list (string * json))) :
  fs !! path = Some (JsonText (JArr (map JObj ds))) ->
  init cfg path now stamp fs
  = ({| config := cfg; file_path := path;
        _conversations := imap (fun k d => filled (now k) d) ds |}, fs).
Proof.
  intros Hfile. unfold init, _load_conversations. cbn [file_path].
  rewrite Hfile. cbn [json_load]. now rewrite from_dicts_dicts.
Qed.

Lemma load_list_of_dicts_witness :
  let fs : disk :=
    {[ "conversations.json" := JsonText (JArr (map JObj [[("user", JNull)]])) ]} in
  fs !! "conversations.json" = Some (JsonText (JArr (map JObj [[("user", JNull)]])))
  /\ _conversations
       (fst (init (demo_config true) "conversations.json" demo_now demo_stamp fs))
     = [null_user_exchange].
Proof.
  intros fs.
  assert (Hfile : fs !! "conversations.json"
                  = Some (JsonText (JArr (map JObj [[("user", JNull)]]))))
    by apply lookup_singleton_eq.
  split; [exact Hfile |].
  now rewrite (load_list_of_dicts (demo_config true) "conversations.json"
                 demo_now demo_stamp fs [[("user", JNull)]] Hfile).
Defined.

(** *** [add_exchange] and the context *)

Lemma add_exchange_accepts now u a tokens mdl rt meta self fs :
  blank u = false -> blank a = false ->
  add_exchange now u a tokens mdl rt meta self fs
  = (let self' := set_conversations self
                    (_conversations self ++ [stored now u a tokens mdl rt meta]) in
     (self', if auto_save (config self) then _save_conversations self' fs else fs)).
Proof.
  intros Hu Ha. unfold add_exchange. rewrite !strip_empty, Hu, Ha. reflexivity.
Qed.

(** X15.  When both texts are non-blank and [auto_save] is on, a manager
    constructed on the disk that [add_exchange] leaves is the manager
    [add_exchange] returns: the new exchange is on disk with all the earlier
    ones.  With [auto_save] off the disk is not touched. *)
Theorem add_exchange_is_durable now u a tokens mdl rt meta self (fs : disk)
    now' stamp :
  blank u = false -> blank a = false ->
  let res := add_exchange now u a tokens mdl rt meta self fs in
  (auto_save (config self) = true ->
     init (config self) (file_path self) now' stamp (snd res) = res)
  /\ (auto_save (config self) = false -> snd res = fs)
  /\ _conversations (fst res)
     = _conversations self ++ [stored now u a tokens mdl rt meta].
Proof.
  intros Hu Ha res. subst res. rewrite add_exchange_accepts by assumption.
  cbv zeta. cbn [fst snd]. split; [| split].
  - intros ->.
    rewrite (init_on_dump _ _ _ _ _
               (_conversations self ++ [stored now u a tokens mdl rt meta]))
      by exact (save_lookup_file (set_conversations self _) fs).
    reflexivity.
  - now intros ->.
  - reflexivity.
Qed.

Lemma add_exchange_is_durable_witness :
  let res := add_exchange "t" " hi " "there" 7 "m" 0 None (saving_manager []) ∅ in
  blank " hi " = false /\ blank "there" = false
  /\ init (demo_config true) "conversations.json" demo_now demo_stamp (snd res)
     = res.
Proof.
  intros res.
  split; [reflexivity | split; [reflexivity |]].
  exact (proj1 (add_exchange_is_durable "t" " hi " "there" 7 "m" 0 None
                  (saving_manager []) ∅ demo_now demo_stamp eq_refl eq_refl)
           eq_refl).
Defined.

(** X16.  After [add_exchange] has accepted two non-blank texts, the last
    entry of [get_recent_context] (for any positive limit in force) is the
    new exchange: its stripped texts and its time stamp; with a limit of 1
    it is the only entry. *)
Theorem added_exchange_is_latest_context now u a tokens mdl rt meta self fs mx :
  blank u = false -> blank a = false ->
  0 < or_default mx (max_history_context (config self)) ->
  let self' := fst (add_exchange now u a tokens mdl rt meta self fs) in
  last (fst (get_recent_context mx false self'))
  = Some (JObj [("user", JStr (strip u)); ("assistant", JStr (strip a));
                ("timestamp", JStr now)])
  /\ (or_default mx (max_history_context (config self)) = 1 ->
      fst (get_recent_context mx false self')
      = [JObj [("user", JStr (strip u)); ("assistant", JStr (strip a));
               ("timestamp", JStr now)]]).
Proof.
  intros Hu Ha Hlim self'. subst self'.
  rewrite add_exchange_accepts by assumption. cbv zeta. cbn [fst].
  unfold get_recent_context.
  cbn [fst config set_conversations _conversations].
  replace (0 <? _) with true by (symmetry; apply Z.ltb_lt; exact Hlim).
  rewrite slice_from_last by exact Hlim.
  set (l := _conversations self). set (e := stored now u a tokens mdl rt meta).
  set (k := Z.to_nat (or_default mx (max_history_context (config self)))).
  assert (Hk : (1 <= k)%nat) by (subst k; lia).
  rewrite length_app. cbn [length].
  assert (Hdrop : drop (length l + 1 - k) (l ++ [e])
                  = drop (length l + 1 - k) l ++ [e]).
  { rewrite drop_app. replace (length l + 1 - k - length l)%nat with 0%nat by lia.
    reflexivity. }
  rewrite Hdrop, map_app. cbn [map]. split.
  - rewrite last_snoc. reflexivity.
  - intros H1. replace k with 1%nat by (subst k; lia).
    replace (length l + 1 - 1)%nat with (length l) by lia.
    now rewrite drop_all.
Qed.

Lemma added_exchange_is_latest_context_witness :
  let self := demo_manager 20 true [demo_exchange 1] in
  blank " hi " = false /\ blank "there" = false
  /\ 0 < or_default (Some 1) (max_history_context (config self))
  /\ fst (get_recent_context (Some 1) false
            (fst (add_exchange "t" " hi " "there" 7 "m" 0 None self ∅)))
     = [JObj [("user", JStr "hi"); ("assistant", JStr "there");
              ("timestamp", JStr "t")]].
Proof.
  intros self.
  assert (Hl : 0 < or_default (Some 1) (max_history_context (config self)))
    by (cbn; lia).
  split; [reflexivity | split; [reflexivity | split; [exact Hl |]]].
  exact (proj2 (added_exchange_is_latest_context "t" " hi " "there" 7 "m" 0
                  None self ∅ (Some 1) eq_refl eq_refl Hl) eq_refl).
Defined.


(** *** Searching *)

Lemma field_matches_text (q : string) (cs : bool) (s : string) :
  field_matches (if cs then q else lower q) cs (JStr s)
  = Returns (contains (if cs then q else lower q) (if cs then s else lower s)).
Proof. now destruct cs. Qed.

Lemma search_loop_text (query : string) (cs su sa : bool) limit :
  let sq := if cs then query else lower query in
  forall convs results,
    Forall text_exchange convs ->
    search_loop sq cs su sa limit convs results
    = Returns (results
               ++ take_more limit (length results)
                    (List.filter (hit query cs su sa) convs)).
Proof.
  intros sq. induction convs as [|e convs IH]; intros results Htext.
  - cbn. destruct limit as [n|]; cbn; [destruct (n =? 0) |];
      now rewrite ?take_nil, app_nil_r.
  - inversion Htext as [|? ? [[u Hu] [a Ha]] Hrest]; subst.
    cbn [search_loop List.filter].
    assert (Hhit : hit query cs su sa e
                   = (su && contains sq (if cs then u else lower u))
                     || (sa && contains sq (if cs then a else lower a))).
    { unfold hit. rewrite Hu, Ha. cbn [field_text]. subst sq.
      now destruct cs. }
    rewrite Hu, Ha. subst sq. rewrite !field_matches_text.
    set (sq := if cs then query else lower query) in *.
    set (cu := contains sq (if cs then u else lower u)) in *.
    set (ca := contains sq (if cs then a else lower a)) in *.
    assert (Hcont : forall m : bool,
      (if m then
         if limit_reached limit (results ++ [e]) then Returns (results ++ [e])
         else search_loop sq cs su sa limit convs (results ++ [e])
       else search_loop sq cs su sa limit convs results)
      = Returns (results
                 ++ take_more limit (length results)
                      (if m then e :: List.filter (hit query cs su sa) convs
                       else List.filter (hit query cs su sa) convs))).
    { intros [|]; [| now apply IH].
      destruct (limit_reached limit (results ++ [e])) eqn:Hlim.
      - unfold limit_reached in Hlim. destruct limit as [n|]; [| discriminate].
        apply andb_true_iff in Hlim as [Hn0 Hle].
        apply negb_true_iff in Hn0. apply Z.leb_le in Hle.
        rewrite length_app in Hle. cbn in Hle.
        unfold take_more. rewrite Hn0.
        replace (Z.to_nat (Z.max 1 (n - Z.of_nat (length results))))
          with 1%nat by lia.
        reflexivity.
      - rewrite IH by exact Hrest. rewrite <- app_assoc. f_equal.
        rewrite length_app. cbn [length app].
        unfold limit_reached in Hlim. unfold take_more.
        destruct limit as [n|]; [| reflexivity].
        destruct (n =? 0) eqn:Hn0; [reflexivity |]. cbn in Hlim.
        apply Z.leb_gt in Hlim. rewrite length_app in Hlim. cbn in Hlim.
        replace (Z.to_nat (Z.max 1 (n - Z.of_nat (length results))))
          with (S (Z.to_nat (Z.max 1 (n - Z.of_nat (length results + 1)))))
          by lia.
        reflexivity. }
    rewrite Hhit.
    destruct su, sa, cu, ca; cbn [andb orb negb];
      first [exact (Hcont true) | exact (Hcont false)].
Qed.

(** X18.  On a store whose [user] and [assistant] texts are all strings,
    [search_conversations] returns without raising.  A blank query gives
    the empty list.  Otherwise the result consists of the exchanges that
    contain the query in a selected field (ignoring case unless
    [case_sensitive]), in store order: all of them when [limit] is [None]
    or 0, the first [limit] of them for a positive [limit], and only the
    first one for a negative [limit]. *)
Theorem search_returns_first_hits query cs su sa limit self :
  Forall text_exchange (_conversations self) ->
  search_conversations query cs su sa limit self
  = Returns (if blank query then []
             else limit_take limit
                    (List.filter (hit query cs su sa) (_conversations self))).
Proof.
  intros Htext. unfold search_conversations. rewrite strip_empty.
  destruct (blank query); [reflexivity |].
  rewrite (search_loop_text query cs su sa limit _ [] Htext).
  cbn [app length]. unfold take_more, limit_take.
  destruct limit as [n|]; [| reflexivity].
  now rewrite Z.sub_0_r.
Qed.

Lemma search_returns_first_hits_witness :
  let self := demo_manager 20 true [demo_exchange 1; demo_exchange 2] in
  Forall text_exchange (_conversations self)
  /\ search_conversations "hello" false true true (Some 1) self
     = Returns [demo_exchange 1]
  /\ search_conversations "HELLO" true true true None self = Returns [].
Proof.
  intros self.
  assert (Htext : Forall text_exchange (_conversations self)).
  { repeat constructor; eexists; reflexivity. }
  split; [exact Htext |]. split.
  - exact (search_returns_first_hits "hello" false true true (Some 1) self Htext).
  - exact (search_returns_first_hits "HELLO" true true true None self Htext).
Defined.

(** X19.  [search_conversations] lets an exception escape when the first
    exchange has a [user] field that is not a string (a store loaded from a
    file can hold one) and the query is not blank: a search that ignores
    case raises [AttributeError]; a case-sensitive search raises
    [TypeError] when the field is [None], a boolean or a number. *)
Theorem search_raises_on_non_text query sa limit e rest self :
  blank query = false ->
  _conversations self = e :: rest ->
  (forall s, user e <> JStr s) ->
  search_conversations query false true sa limit self = RaisesAttributeError
  /\ (user e = JNull \/ (exists b, user e = JBool b)
      \/ (exists z, user e = JInt z) \/ (exists q, user e = JFloat q) ->
      search_conversations query true true sa limit self = RaisesTypeError).
Proof.
  intros Hq Hconvs Huser. unfold search_conversations.
  rewrite strip_empty, Hq, Hconvs. cbn [search_loop]. split.
  - unfold field_matches. destruct (user e) eqn:Hu; try reflexivity.
    now destruct (Huser s).
  - unfold field_matches.
    intros [-> | [[b ->] | [[z ->] | [q ->]]]]; reflexivity.
Qed.

Lemma search_raises_on_non_text_witness :
  let self := demo_manager 20 true [null_user_exchange] in
  blank "hello" = false
  /\ _conversations self = null_user_exchange :: []
  /\ (forall s, user null_user_exchange <> JStr s)
  /\ search_conversations "hello" false true true None self
     = RaisesAttributeError.
Proof.
  intros self.
  assert (Hu : forall s, user null_user_exchange <> JStr s) by discriminate.
  split; [reflexivity | split; [reflexivity | split; [exact Hu |]]].
  exact (proj1 (search_raises_on_non_text "hello" true None null_user_exchange
                  [] self eq_refl eq_refl Hu)).
Defined.

(** *** Clearing, compacting, exporting *)

(** X20.  [clear_history] returns [True] and leaves an empty store, whose
    context is empty for every limit.  With [auto_save] on, the
    conversation file then holds the empty list and a manager constructed
    on the resulting disk is the cleared one; with [auto_save] off the
    conversation file keeps its content.  When a backup is requested, the
    store is not empty and the file exists, the backup path (if it differs
    from the conversation file and from its [.tmp] sibling) holds the
    content the file had before. *)
Theorem clear_history_empties backup stamp self (fs : disk) now stamp' :
  let res := clear_history backup stamp self fs in
  let self' := snd (fst res) in
  let fs' := snd res in
  fst (fst res) = true
  /\ _conversations self' = []
  /\ (forall mx md, fst (get_recent_context mx md self') = [])
  /\ (auto_save (config self) = true ->
      fs' !! file_path self = Some (JsonText (JArr []))
      /\ init (config self) (file_path self) now stamp' fs' = (self', fs'))
  /\ (auto_save (config self) = false ->
      fs' !! file_path self = fs !! file_path self)
  /\ (forall c,
        backup = true -> _conversations self <> [] ->
        fs !! file_path self = Some c ->
        backup_path self "manual_clear" stamp <> file_path self ->
        backup_path self "manual_clear" stamp
        <> with_suffix (file_path self) ".tmp" ->
        fs' !! backup_path self "manual_clear" stamp = Some c).
Proof.
  intros res self' fs'. subst res self' fs'. unfold clear_history.
  cbn [fst snd]. split; [reflexivity |]. split; [reflexivity |].
  split.
  { intros mx md. unfold get_recent_context.
    cbn [fst _conversations set_conversations]. unfold slice_from.
    destruct (0 <? _); [| reflexivity]. cbn. now rewrite drop_nil. }
  split.
  { intros ->. split.
    - exact (save_lookup_file (set_conversations self []) _).
    - rewrite (init_on_dump _ _ _ _ _ [])
        by exact (save_lookup_file (set_conversations self []) _).
      reflexivity. }
  split.
  { intros ->. destruct backup, (_conversations self); try reflexivity.
    apply create_backup_keeps_file. }
  intros c -> Hne Hfile Ht1 Ht2.
  destruct (_conversations self) as [|e l]; [now destruct Hne |].
  assert (Hb : snd (_create_backup "manual_clear" stamp self fs)
                 !! backup_path self "manual_clear" stamp = Some c).
  { unfold _create_backup. rewrite Hfile. cbn [snd]. apply lookup_insert_eq. }
  destruct (auto_save (config self)); [| exact Hb].
  unfold _save_conversations. cbn [file_path set_conversations].
  rewrite lookup_insert_ne by congruence.
  rewrite lookup_delete_ne by congruence.
  rewrite lookup_insert_ne by congruence. exact Hb.
Qed.

(** X21.  When the threshold in force is zero or negative and the store is
    not empty, [optimize_storage] reports [N - threshold] removals, at least
    the size [N] of the store, but drops only the first [min(-threshold, N)]
    exchanges.  With a threshold of 0, which is what a context window of 0
    gives by default, it reports [N] removals and keeps every exchange. *)
Theorem optimize_nonpositive_threshold mx stamp self (fs : disk) :
  let m := or_default mx (max_history_context (config self) * 10) in
  let N := Z.of_nat (length (_conversations self)) in
  m <= 0 -> 0 < N ->
  let res := optimize_storage mx stamp self fs in
  fst (fst res) = N - m
  /\ _conversations (snd (fst res))
     = drop (Z.to_nat (Z.min (- m) N)) (_conversations self)
  /\ (m = 0 -> _conversations (snd (fst res)) = _conversations self
               /\ fst (fst res) = N).
Proof.
  intros m N Hm HN res. subst res. unfold optimize_storage. fold m N.
  replace (N <=? m) with false by (symmetry; apply Z.leb_gt; lia).
  cbn [fst snd _conversations set_conversations].
  assert (Hslice : slice_from (- m) (_conversations self)
                   = drop (Z.to_nat (Z.min (- m) N)) (_conversations self)).
  { unfold slice_from. fold N.
    replace (- m <? 0) with false by (symmetry; apply Z.ltb_ge; lia).
    reflexivity. }
  rewrite Hslice. split; [reflexivity |]. split; [reflexivity |].
  intros Hm0. split; [| lia].
  replace (Z.to_nat (Z.min (- m) N)) with 0%nat by lia. reflexivity.
Qed.

Lemma optimize_nonpositive_threshold_witness :
  let self := demo_manager 0 true [demo_exchange 1; demo_exchange 2] in
  or_default None (max_history_context (config self) * 10) <= 0
  /\ 0 < Z.of_nat (length (_conversations self))
  /\ fst (fst (optimize_storage None demo_stamp self ∅)) = 2
  /\ _conversations (snd (fst (optimize_storage None demo_stamp self ∅)))
     = [demo_exchange 1; demo_exchange 2].
Proof.
  intros self.
  assert (Hm : or_default None (max_history_context (config self) * 10) <= 0)
    by (cbn; lia).
  assert (HN : 0 < Z.of_nat (length (_conversations self))) by (cbn; lia).
  split; [exact Hm | split; [exact HN |]].
  destruct (optimize_nonpositive_threshold None demo_stamp self ∅ Hm HN)
    as (Hn & Hkept & _).
  split; [exact Hn | exact Hkept].
Defined.

(** X22.  When [auto_save] is on and [optimize_storage] trims the store, a
    manager constructed on the disk it leaves is the trimmed manager it
    returns. *)
Theorem optimize_then_reload mx stamp self (fs : disk) now stamp' :
  auto_save (config self) = true ->
  or_default mx (max_history_context (config self) * 10)
  < Z.of_nat (length (_conversations self)) ->
  let res := optimize_storage mx stamp self fs in
  init (config self) (file_path self) now stamp' (snd res)
  = (snd (fst res), snd res).
Proof.
  intros Hsave Hgt res. subst res. unfold optimize_storage.
  replace (_ <=? _) with false by (symmetry; apply Z.leb_gt; lia).
  rewrite Hsave. cbn [fst snd].
  rewrite (init_on_dump _ _ _ _ _
             (slice_from (- or_default mx (max_history_context (config self) * 10))
                (_conversations self)))
    by exact (save_lookup_file (set_conversations self _) _).
  reflexivity.
Qed.

Lemma optimize_then_reload_witness :
  let self := saving_manager [demo_exchange 1; demo_exchange 2; demo_exchange 3] in
  let res := optimize_storage (Some 2) demo_stamp self ∅ in
  auto_save (config self) = true
  /\ or_default (Some 2) (max_history_context (config self) * 10)
     < Z.of_nat (length (_conversations self))
  /\ _conversations
       (fst (init (config self) (file_path self) demo_now demo_stamp (snd res)))
     = [demo_exchange 2; demo_exchange 3].
Proof.
  intros self res.
  assert (Hgt : or_default (Some 2) (max_history_context (config self) * 10)
                < Z.of_nat (length (_conversations self))) by (cbn; lia).
  split; [reflexivity | split; [exact Hgt |]].
  subst res.
  now rewrite (optimize_then_reload (Some 2) demo_stamp self ∅ demo_now
                 demo_stamp eq_refl Hgt).
Defined.

(** X23.  Exporting a non-empty store as JSON succeeds and changes no file
    but the export file; a manager constructed with that file as its
    conversation file holds the same exchanges in the same order. *)
Theorem export_then_load out self (fs : disk) cfg now stamp :
  _conversations self <> [] ->
  let res := export_conversations out JSON self fs in
  fst res = true
  /\ init cfg out now stamp (snd res)
     = ({| config := cfg; file_path := out;
           _conversations := _conversations self |}, snd res)
  /\ (forall q, q <> out -> snd res !! q = fs !! q).
Proof.
  intros Hne res. subst res. unfold export_conversations.
  destruct (_conversations self) as [|e l] eqn:Hl; [now destruct Hne |].
  cbn [fst snd]. split; [reflexivity |]. unfold _export_json. split.
  - apply init_on_dump. apply lookup_insert_eq.
  - intros q Hq. now rewrite lookup_insert_ne by congruence.
Qed.

Lemma export_then_load_witness :
  let self := demo_manager 20 true [demo_exchange 1; demo_exchange 2] in
  let res := export_conversations "export.json" JSON self ∅ in
  _conversations self <> []
  /\ _conversations
       (fst (init (demo_config true) "export.json" demo_now demo_stamp (snd res)))
     = [demo_exchange 1; demo_exchange 2].
Proof.
  intros self res.
  assert (Hne : _conversations self <> []) by discriminate.
  split; [exact Hne |]. subst res.
  destruct (export_then_load "export.json" self ∅ (demo_config true) demo_now
              demo_stamp Hne) as (_ & Hload & _).
  now rewrite Hload.
Defined.

(** *** An invariant of the stored texts *)

Lemma rstrip_idempotent s : rstrip (rstrip s) = rstrip s.
Proof.
  induction s as [|c s IH]; [reflexivity |].
  cbn [rstrip]. destruct (rstrip s) as [|c' s'] eqn:Hs.
  - destruct (isspace c) eqn:Hc; [reflexivity |]. cbn. now rewrite Hc.
  - cbn [rstrip]. change (rstrip (String c' s')) with
      (match rstrip s' with
       | EmptyString => if isspace c' then EmptyString else String c' EmptyString
       | rest' => String c' rest'
       end) in IH |- *.
    rewrite IH. reflexivity.
Qed.

Lemma lstrip_fixed s :
  (forall c, first_char s = Some c -> isspace c = false) -> lstrip s = s.
Proof.
  destruct s as [|c s]; [reflexivity |]. intros H. cbn.
  now rewrite (H c eq_refl).
Qed.

Lemma strip_idempotent s : strip (strip s) = strip s.
Proof.
  unfold strip at 1. rewrite (lstrip_fixed (strip s)).
  - unfold strip. apply rstrip_idempotent.
  - apply strip_trimmed.
Qed.

Lemma stored_clean now u a tokens mdl rt meta :
  blank u = false -> blank a = false ->
  clean (stored now u a tokens mdl rt meta).
Proof.
  intros Hu Ha. exists (strip u), (strip a). cbn.
  repeat split; try apply strip_idempotent.
  - intros H. apply String.eqb_eq in H. rewrite strip_empty in H. congruence.
  - intros H. apply String.eqb_eq in H. rewrite strip_empty in H. congruence.
Qed.

Lemma add_exchange_clean now u a tokens mdl rt meta self fs :
  Forall clean (_conversations self) ->
  Forall clean
    (_conversations (fst (add_exchange now u a tokens mdl rt meta self fs))).
Proof.
  intros Hclean.
  destruct (blank u) eqn:Hu; [| destruct (blank a) eqn:Ha].
  - unfold add_exchange. rewrite !strip_empty, Hu. exact Hclean.
  - unfold add_exchange. rewrite !strip_empty, Hu, Ha. exact Hclean.
  - rewrite add_exchange_accepts by assumption. cbn.
    apply Forall_app. split; [exact Hclean |].
    constructor; [now apply stored_clean | constructor].
Qed.

(** X24.  If every stored exchange has non-empty string texts without
    leading or trailing whitespace, this is still so after [add_exchange]
    (with any arguments), after [optimize_storage], after [clear_history],
    and after saving and constructing a manager on the saved file. *)
Theorem store_stays_clean self (fs : disk) :
  Forall clean (_conversations self) ->
  (forall now u a tokens mdl rt meta,
     Forall clean
       (_conversations (fst (add_exchange now u a tokens mdl rt meta self fs))))
  /\ (forall mx stamp,
        Forall clean
          (_conversations (snd (fst (optimize_storage mx stamp self fs)))))
  /\ (forall backup stamp,
        Forall clean
          (_conversations (snd (fst (clear_history backup stamp self fs)))))
  /\ (forall now stamp,
        Forall clean
          (_conversations
             (fst (init (config self) (file_path self) now stamp
                     (_save_conversations self fs))))).
Proof.
  intros Hclean. split; [| split; [| split]].
  - intros now u a tokens mdl rt meta. now apply add_exchange_clean.
  - intros mx stamp. unfold optimize_storage.
    destruct (_ <=? _); cbn [fst snd _conversations set_conversations];
      [exact Hclean |].
    unfold slice_from. now apply Forall_drop.
  - intros backup stamp. cbn. constructor.
  - intros now stamp.
    rewrite (init_on_dump _ _ _ _ _ (_conversations self))
      by apply save_lookup_file.
    exact Hclean.
Qed.

Lemma store_stays_clean_witness :
  let self := demo_manager 20 true [] in
  Forall clean (_conversations self)
  /\ Forall clean
       (_conversations
          (fst (add_exchange "t" " hi " "there" 7 "m" 0 None self ∅))).
Proof.
  intros self.
  assert (H0 : Forall clean (_conversations self)) by constructor.
  split; [exact H0 |].
  exact (proj1 (store_stays_clean self ∅ H0) "t" " hi " "there" 7 "m" 0%Q None).
Defined.

End StoreExtras.

(* ===================================================================== *)
(** ** Properties of message building and of a chat turn *)
(* ===================================================================== *)
Module AssistantExtras.
Import AiClient Conversation ConversationOps Assistant.
Import AiClientProps ConversationProps.

(** *** [_build_messages] *)

Lemma history_window_ceil mt :
  1 <= mt -> history_window mt = (mt + 99) / 100 /\ 1 <= history_window mt.
Proof.
  intros Hmt. unfold history_window.
  pose proof (Z.div_mod (- mt) 100 ltac:(lia)) as H1.
  pose proof (Z.mod_pos_bound (- mt) 100 ltac:(lia)) as H2.
  pose proof (Z.div_mod (mt + 99) 100 ltac:(lia)) as H3.
  pose proof (Z.mod_pos_bound (mt + 99) 100 ltac:(lia)) as H4.
  lia.
Qed.

Lemma history_messages_length x : (length (history_messages x) <= 2)%nat.
Proof.
  unfold history_messages. destruct x; cbn; try lia.
  destruct (_ && _); [cbn; lia |]. destruct (_ && _); cbn; lia.
Qed.

Lemma flat_map_history_length l :
  (length (flat_map history_messages l) <= 2 * length l)%nat.
Proof.
  induction l as [|x l IH]; [cbn; lia |]. cbn [flat_map].
  rewrite length_app. pose proof (history_messages_length x). cbn [length]. lia.
Qed.

Lemma slice_from_window {A} (mt : Z) (l : list A) :
  1 <= mt ->
  slice_from (- mt / 100) l
  = drop (length l - Z.to_nat (history_window mt)) l.
Proof.
  intros Hmt. destruct (history_window_ceil mt Hmt) as [_ Hk].
  replace (- mt / 100) with (- history_window mt)
    by (unfold history_window; lia).
  apply slice_from_last. lia.
Qed.

(** X25.  The list [_build_messages] returns starts with the system message,
    carrying the custom prompt unless that is [None] or empty and the
    configured prompt otherwise, and ends with the user's message; without
    history (or with an empty one) these are the only two messages.  For
    [max_tokens >= 1] it holds at most two messages for each of the last
    [ceil(max_tokens / 100)] history entries. *)
Theorem build_messages_shape sp mt msg history custom :
  let messages := _build_messages sp mt msg history custom in
  head messages = Some (system_message (or_prompt custom sp))
  /\ last messages = Some (user_message_of msg)
  /\ (2 <= length messages)%nat
  /\ (history = None \/ history = Some [] ->
      messages = [system_message (or_prompt custom sp); user_message_of msg])
  /\ (1 <= mt ->
      forall h, history = Some h ->
        Z.of_nat (length messages)
        <= 2 + 2 * Z.min (Z.of_nat (length h)) ((mt + 99) / 100)).
Proof.
  intros messages. subst messages. unfold _build_messages.
  split; [reflexivity |]. split.
  { rewrite app_comm_cons. apply last_snoc. }
  split.
  { cbn [length]. rewrite length_app. cbn. lia. }
  split.
  { intros [-> | ->]; reflexivity. }
  intros Hmt h ->. cbn [length]. rewrite length_app. cbn [length].
  destruct (history_window_ceil mt Hmt) as [Hk Hk1]. rewrite <- Hk.
  destruct h as [|x h]; [cbn; lia |].
  rewrite slice_from_window by exact Hmt.
  pose proof (flat_map_history_length
                (drop (length (x :: h) - Z.to_nat (history_window mt)) (x :: h)))
    as Hlen.
  rewrite length_drop in Hlen. lia.
Qed.

Lemma history_messages_entry md e :
  history_messages (context_entry md e) = to_openai_format e.
Proof.
  unfold context_entry. destruct md.
  - rewrite to_dict_fields. reflexivity.
  - reflexivity.
Qed.

Lemma flat_map_context md l :
  flat_map history_messages (map (context_entry md) l)
  = flat_map to_openai_format l.
Proof.
  induction l as [|e l IH]; [reflexivity |].
  cbn [map flat_map]. now rewrite history_messages_entry, IH.
Qed.

(** X26.  For [max_tokens >= 1], the messages built from the context that
    [get_recent_context] returns are: the system message, then the [user]
    and [assistant] texts of the last [min(limit, ceil(max_tokens / 100))]
    stored exchanges in order ([limit] being the context limit in force;
    nothing when it is not positive), then the user's message. *)
Theorem build_messages_from_context sp mt msg custom mx md self :
  1 <= mt ->
  let context := fst (get_recent_context mx md self) in
  let limit := or_default mx (max_history_context (config self)) in
  let window := Z.min limit ((mt + 99) / 100) in
  _build_messages sp mt msg (Some context) custom
  = system_message (or_prompt custom sp)
    :: (if 0 <? limit
        then flat_map to_openai_format
               (drop (length (_conversations self) - Z.to_nat window)
                     (_conversations self))
        else [])
    ++ [user_message_of msg].
Proof.
  intros Hmt context limit window. subst context.
  unfold get_recent_context. fold limit. cbn [fst].
  destruct (history_window_ceil mt Hmt) as [Hk Hk1].
  destruct (0 <? limit) eqn:Hl.
  - apply Z.ltb_lt in Hl. rewrite slice_from_last by exact Hl.
    unfold _build_messages.
    set (l := _conversations self).
    destruct (map (context_entry md) (drop (length l - Z.to_nat limit) l))
      as [|x h] eqn:Hmap.
    + apply (f_equal (@length _)) in Hmap.
      rewrite length_map, length_drop in Hmap. cbn in Hmap.
      assert (Hnil : l = []) by (destruct l; [reflexivity | cbn in Hmap; lia]).
      rewrite Hnil. now rewrite drop_nil.
    + rewrite <- Hmap. rewrite slice_from_window by exact Hmt.
      rewrite List.skipn_map, flat_map_context, drop_drop.
      rewrite length_map, length_drop. do 3 f_equal.
      subst window. rewrite <- Hk. f_equal. lia.
  - reflexivity.
Qed.

Lemma build_messages_from_context_witness :
  let self := demo_manager 20 true [demo_exchange 1; demo_exchange 2] in
  1 <= 100
  /\ _build_messages "Be brief." 100 "And now?"
       (Some (fst (get_recent_context None false self))) None
     = [system_message "Be brief.";
        JObj [("role", JStr "user"); ("content", JStr "Hello, how are you?")];
        JObj [("role", JStr "assistant");
              ("content", JStr "I'm doing well, thank you!")];
        user_message_of "And now?"].
Proof.
  intros self.
  assert (H1 : 1 <= 100) by lia.
  split; [exact H1 |].
  exact (build_messages_from_context "Be brief." 100 "And now?" None None
           false self H1).
Defined.

(** *** One chat turn *)

Lemma process_chat_run ai_config (p : provider) t0 t1 now msg self (fs : disk) :
  fst (run (_process_chat_message ai_config p t0 t1 now msg self fs))
  = let r := outcome ai_config p t0 t1 (ai_client self) in
    let client := client_after ai_config p t0 t1 (ai_client self) in
    if success r then
      let res :=
        add_exchange now msg (content r) (AiClient.tokens_used r)
          (AiClient.model_used r) (AiClient.response_time r)
          (Some [("attempt_count", JInt (attempt_count r));
                 ("error_type",
                  match error_type r with
                  | Some e => JStr (ErrorType_value e)
                  | None => JNull
                  end)])
          (conversation_manager self) fs in
      (content r,
       {| ai_client := client; conversation_manager := fst res |}, snd res)
    else
      ("Sorry, I encountered an error: " +:+ format_opt (error_message r),
       {| ai_client := client;
          conversation_manager := conversation_manager self |}, fs).
Proof.
  unfold _process_chat_message, outcome, client_after, run.
  unfold get_recent_context. cbn [fst snd]. unfold bind.
  destruct (generate_response ai_config p t0 t1 (ai_client self) [])
    as [[r client] log]. cbn [fst snd].
  destruct (success r); [| reflexivity].
  destruct (add_exchange _ _ _ _ _ _ _ _ _) as [m f]. reflexivity.
Qed.

(** X27.  One chat turn updates the client's statistics as the
    [generate_response] call does.  It appends exactly one exchange,
    holding the stripped message and the stripped answer, when the outcome
    is a success and neither the message nor the answer is blank; otherwise
    the store and the disk are left exactly as they were, so neither a
    failed outcome nor a successful outcome with blank content is ever
    stored.  After a failure the reply is the fixed apology followed by the
    outcome's error message.  A store whose texts are non-empty and trimmed
    stays so. *)
Theorem chat_turn_stores_only_real_answers ai_config (p : provider) t0 t1 now msg
    self (fs : disk) :
  let res := fst (run (_process_chat_message ai_config p t0 t1 now msg self fs)) in
  let r := outcome ai_config p t0 t1 (ai_client self) in
  let before := _conversations (conversation_manager self) in
  let after := _conversations (conversation_manager (assistant_of res)) in
  ai_client (assistant_of res) = client_after ai_config p t0 t1 (ai_client self)
  /\ (if success r && negb (blank msg) && negb (blank (content r))
      then exists e, after = before ++ [e]
                     /\ user e = JStr (strip msg)
                     /\ assistant e = JStr (strip (content r))
                     /\ reply_of res = content r
      else conversation_manager (assistant_of res) = conversation_manager self
           /\ disk_of res = fs)
  /\ (success r = false ->
      exists m, error_message r = Some m
                /\ reply_of res = "Sorry, I encountered an error: " +:+ m)
  /\ (Forall clean before -> Forall clean after).
Proof.
  intros res r before after. subst res before after.
  rewrite process_chat_run. fold r. cbv zeta.
  destruct (success r) eqn:Hok; cbn [andb].
  - cbn [assistant_of reply_of disk_of fst snd ai_client conversation_manager].
    split; [reflexivity |]. split; [| split; [discriminate |]].
    + destruct (blank msg) eqn:Hm; [| destruct (blank (content r)) eqn:Hc];
        cbn [negb andb].
      * unfold add_exchange. rewrite !strip_empty, Hm. cbn. split; reflexivity.
      * unfold add_exchange. rewrite !strip_empty, Hm, Hc. cbn.
        split; reflexivity.
      * rewrite StoreExtras.add_exchange_accepts by assumption. cbn.
        eexists. repeat split.
    + intros Hclean. now apply StoreExtras.add_exchange_clean.
  - cbn [assistant_of reply_of disk_of fst snd ai_client conversation_manager].
    split; [reflexivity |]. split; [split; reflexivity |].
    split; [| tauto]. intros _.
    destruct (ClientExtras.failure_has_message ai_config p t0 t1
                (ai_client self) Hok) as [m Hm].
    fold r in Hm. exists m. split; [exact Hm |]. now rewrite Hm.
Qed.

End AssistantExtras.
